(** * folder_sync: one-way directory mirroring (sync.py)

    A shallow embedding of [sync.py] and the properties of one synchronisation
    pass.  The script lists a source and a destination directory, copies every
    source file that is new or whose MD5 digest differs, removes every
    destination file that has no source counterpart, and appends a line to a
    log file for each of these steps.

    The embedding keeps the effects of the script explicit: a [world] holds
    the file system, the clock, the standard output and the sequence of
    library calls made so far, and the script runs in a state-and-exception
    monad over it. *)

From Stdlib Require Import ZArith Ascii String.
From stdpp Require Import gmap strings list fin_maps sorting.

Local Open Scope Z_scope.

(* ===================================================================== *)
(** ** hashlib.md5: the MD5 message digest (RFC 1321)                     *)
(* ===================================================================== *)

Module MD5.

Definition two32 : Z := 4294967296.

Definition add32 (x y : Z) : Z := (x + y) mod two32.
Definition not32 (x : Z) : Z := Z.lxor x (two32 - 1).
Definition rotl32 (x n : Z) : Z :=
  Z.lor (Z.shiftl x n mod two32) (Z.shiftr x (32 - n)).

(** K[i] = floor(2^32 * |sin (i + 1)|) *)
Definition K : list Z :=
  [ 3614090360; 3905402710; 606105819; 3250441966; 4118548399; 1200080426;
    2821735955; 4249261313; 1770035416; 2336552879; 4294925233; 2304563134;
    1804603682; 4254626195; 2792965006; 1236535329; 4129170786; 3225465664;
    643717713; 3921069994; 3593408605; 38016083; 3634488961; 3889429448;
    568446438; 3275163606; 4107603335; 1163531501; 2850285829; 4243563512;
    1735328473; 2368359562; 4294588738; 2272392833; 1839030562; 4259657740;
    2763975236; 1272893353; 4139469664; 3200236656; 681279174; 3936430074;
    3572445317; 76029189; 3654602809; 3873151461; 530742520; 3299628645;
    4096336452; 1126891415; 2878612391; 4237533241; 1700485571; 2399980690;
    4293915773; 2240044497; 1873313359; 4264355552; 2734768916; 1309151649;
    4149444226; 3174756917; 718787259; 3951481745 ].

(** per-round left-rotation amounts *)
Definition R : list Z :=
  [ 7; 12; 17; 22; 7; 12; 17; 22; 7; 12; 17; 22; 7; 12; 17; 22;
    5; 9; 14; 20; 5; 9; 14; 20; 5; 9; 14; 20; 5; 9; 14; 20;
    4; 11; 16; 23; 4; 11; 16; 23; 4; 11; 16; 23; 4; 11; 16; 23;
    6; 10; 15; 21; 6; 10; 15; 21; 6; 10; 15; 21; 6; 10; 15; 21 ].

Definition mix (i b c d : Z) : Z :=
  if i <? 16 then Z.lor (Z.land b c) (Z.land (not32 b) d)
  else if i <? 32 then Z.lor (Z.land d b) (Z.land (not32 d) c)
  else if i <? 48 then Z.lxor b (Z.lxor c d)
  else Z.lxor c (Z.lor b (not32 d)).

Definition word_index (i : Z) : Z :=
  if i <? 16 then i
  else if i <? 32 then (5 * i + 1) mod 16
  else if i <? 48 then (3 * i + 5) mod 16
  else (7 * i) mod 16.

Definition regs : Type := Z * Z * Z * Z.

Definition step (M : list Z) (st : regs) (i : nat) : regs :=
  let '(a, b, c, d) := st in
  let iz := Z.of_nat i in
  let f := add32 (add32 (add32 (mix iz b c d) a) (nth i K 0))
                 (nth (Z.to_nat (word_index iz)) M 0) in
  (d, add32 b (rotl32 f (nth i R 0)), b, c).

Definition compress (st : regs) (M : list Z) : regs :=
  let '(a0, b0, c0, d0) := st in
  let '(a, b, c, d) := fold_left (step M) (seq 0 64) st in
  (add32 a0 a, add32 b0 b, add32 c0 c, add32 d0 d).

(** little-endian encoding and decoding *)
Fixpoint le_bytes (n : nat) (x : Z) : list Z :=
  match n with
  | O => []
  | S n' => (x mod 256) :: le_bytes n' (x / 256)
  end.

Fixpoint le_word (bs : list Z) : Z :=
  match bs with
  | [] => 0
  | b :: bs' => b + 256 * le_word bs'
  end.

Fixpoint chunks {A} (fuel n : nat) (l : list A) : list (list A) :=
  match fuel with
  | O => []
  | S fuel' =>
      match l with
      | [] => []
      | _ => take n l :: chunks fuel' n (drop n l)
      end
  end.

Definition pad (msg : list Z) : list Z :=
  let len := Z.of_nat (length msg) in
  let zeros := Z.to_nat ((55 - len) mod 64) in
  msg ++ [128] ++ repeat 0 zeros ++ le_bytes 8 ((8 * len) mod 2 ^ 64).

Definition init : regs := (1732584193, 4023233417, 2562383102, 271733878).

Definition digest (msg : list Z) : list Z :=
  let bytes := pad msg in
  let words := map le_word (chunks (length bytes) 4 bytes) in
  let blocks := chunks (length words) 16 words in
  let '(a, b, c, d) := fold_left compress blocks init in
  le_bytes 4 a ++ le_bytes 4 b ++ le_bytes 4 c ++ le_bytes 4 d.

Definition hex_digit (n : Z) : ascii :=
  ascii_of_N (Z.to_N (if n <? 10 then 48 + n else 87 + n)).

Fixpoint hex (bs : list Z) : string :=
  match bs with
  | [] => EmptyString
  | b :: bs' => String (hex_digit (b / 16)) (String (hex_digit (b mod 16)) (hex bs'))
  end.

Definition bytes_of_string (s : string) : list Z :=
  map (fun c => Z.of_N (N_of_ascii c)) (list_ascii_of_string s).


(** [hashlib.md5(data).hexdigest()] *)
Definition hexdigest (data : string) : string := hex (digest (bytes_of_string data)).

End MD5.

Local Open Scope string_scope.
Local Open Scope nat_scope.

(* ===================================================================== *)
(** ** time.strftime("%Y-%m-%d %H:%M:%S")                                 *)
(* ===================================================================== *)

(** The broken-down local time that [time.strftime] formats. *)
Record struct_time := StructTime {
  tm_year : nat; tm_mon : nat; tm_mday : nat;
  tm_hour : nat; tm_min : nat; tm_sec : nat
}.

#[global] Instance struct_time_eq_dec : EqDecision struct_time.
Proof. solve_decision. Defined.

Definition digit (n : nat) : ascii := ascii_of_nat (48 + n mod 10).

Definition pad2 (n : nat) : string :=
  String (digit (n / 10)) (String (digit n) "").

Definition pad4 (n : nat) : string :=
  String (digit (n / 1000)) (String (digit (n / 100)) (pad2 n)).

Definition strftime (t : struct_time) : string :=
  pad4 (tm_year t) +:+ "-" +:+ pad2 (tm_mon t) +:+ "-" +:+ pad2 (tm_mday t)
  +:+ " " +:+ pad2 (tm_hour t) +:+ ":" +:+ pad2 (tm_min t) +:+ ":" +:+ pad2 (tm_sec t).

Definition newline : string := String (ascii_of_nat 10) "".

(* ===================================================================== *)
(** ** The file system, the world and the calls made on it                *)
(* ===================================================================== *)

(** A regular file: its bytes, its permission bits and its modification
    time. *)
Record file := File { data : string; mode : N; mtime : struct_time }.

(** A directory entry is a regular file, or something that is not one (a
    subdirectory): [open], [shutil.copy] and [os.remove] all fail on it. *)
Inductive entry :=
| Regular (f : file)
| Subdir.

#[global] Instance file_eq_dec : EqDecision file.
Proof. solve_decision. Defined.
#[global] Instance entry_eq_dec : EqDecision entry.
Proof. solve_decision. Defined.

(** Directories are keyed by their resolved path; a path that is not a key
    does not exist, is not a directory or cannot be listed.  Each directory
    maps the names of its entries to the entries. *)
Abbreviation directory := (gmap string entry).
Abbreviation filesystem := (gmap string (gmap string entry)).

(** [os.path.join(dir, name)]: the entry [name] of directory [dir]. *)
Record path := Path { dirname : string; basename : string }.

#[global] Instance path_eq_dec : EqDecision path.
Proof. solve_decision. Defined.

Definition os_path_join (dir name : string) : path := Path dir name.

Definition entry_at (m : filesystem) (p : path) : option entry :=
  match m !! dirname p with
  | Some d => d !! basename p
  | None => None
  end.

(** The calls that reach the outside, in the order they are made.  A call is
    recorded when it is made, whether or not it then fails.  [Copy] also
    records whether the target entry existed when the call was made. *)
Inductive event :=
| Stdout (line : string)                   (* print(line) *)
| Log (message : string)                   (* Logger.log(message) *)
| Listdir (dir : string)                   (* os.listdir(dir) *)
| ReadFile (p : path)                      (* open(p, 'rb').read() *)
| Copy (from : path) (dstdir : string) (target_existed : bool)
                                           (* shutil.copy(from, dstdir) *)
| Remove (p : path).                       (* os.remove(p) *)

#[global] Instance event_eq_dec : EqDecision event.
Proof. solve_decision. Defined.

(** The exceptions, named after the call that raises them (all are [OSError]
    in Python). *)
Inductive error :=
| DirectoryAccessError (dir : string)      (* os.listdir *)
| LogFileError (p : path)                  (* open(log_file_path, 'a') *)
| HashComputationError (p : path)          (* open(file_path, 'rb') *)
| CopyError (from : path) (dstdir : string)(* shutil.copy *)
| RemoveError (p : path).                  (* os.remove *)

#[global] Instance error_eq_dec : EqDecision error.
Proof. solve_decision. Defined.

Record world := World {
  fs : filesystem;        (* the directories *)
  ticks : nat;            (* how many times the clock has been read *)
  stdout : list string;   (* the lines printed so far *)
  trace : list event      (* the calls made so far *)
}.

(** *** The state-and-exception monad of the script *)

Inductive result (A : Type) :=
| Ok (a : A)
| Raise (e : error).
Arguments Ok {A} a.
Arguments Raise {A} e.

Definition M (A : Type) : Type := world -> world * result A.

#[global] Instance M_ret : MRet M := fun A a w => (w, Ok a).

#[global] Instance M_bind : MBind M := fun A B f m w =>
  match m w with
  | (w', Ok a) => f a w'
  | (w', Raise e) => (w', Raise e)
  end.

(** [for x in l: body x] *)
Fixpoint for_each {A} (l : list A) (body : A -> M unit) : M unit :=
  match l with
  | [] => mret tt
  | x :: l' => body x ;; for_each l' body
  end.

(** [if c: m] *)
Definition when (c : bool) (m : M unit) : M unit := if c then m else mret tt.

Definition record (e : event) (w : world) : world :=
  World (fs w) (ticks w) (stdout w) (trace w ++ [e]).

(** *** Pure file-system operations *)

Definition default_mode : N := 420.  (* 0o644 *)

(** [open(p, 'a').write(text)]: creates the file when it is absent. *)
Definition fs_append (p : path) (text : string) (now : struct_time)
    (m : filesystem) : option filesystem :=
  match m !! dirname p with
  | None => None
  | Some d =>
      match d !! basename p with
      | Some Subdir => None
      | Some (Regular f) =>
          Some (<[dirname p := <[basename p := Regular (File (data f +:+ text) (mode f) now)]> d]> m)
      | None =>
          Some (<[dirname p := <[basename p := Regular (File text default_mode now)]> d]> m)
      end
  end.

(** [open(p, 'rb').read()] *)
Definition fs_read (p : path) (m : filesystem) : option string :=
  match entry_at m p with
  | Some (Regular f) => Some (data f)
  | _ => None
  end.

(** [shutil.copy(from, dstdir)] with [dstdir] a directory: the bytes and the
    permission bits of [from] are written to [dstdir/basename(from)]; the
    modification time of the target is the time of the copy.  Copying a file
    onto itself raises [SameFileError].  ([sync] calls it only after
    [os.listdir(dstdir)] has returned, so [dstdir] is a directory.) *)
Definition fs_copy (from : path) (dstdir : string) (now : struct_time)
    (m : filesystem) : option filesystem :=
  match entry_at m from, m !! dstdir with
  | Some (Regular f), Some d =>
      if decide (dirname from = dstdir) then None
      else match d !! basename from with
           | Some Subdir => None
           | _ => Some (<[dstdir := <[basename from := Regular (File (data f) (mode f) now)]> d]> m)
           end
  | _, _ => None
  end.

(** [os.remove(p)] *)
Definition fs_remove (p : path) (m : filesystem) : option filesystem :=
  match m !! dirname p with
  | Some d =>
      match d !! basename p with
      | Some (Regular _) => Some (<[dirname p := delete (basename p) d]> m)
      | _ => None
      end
  | None => None
  end.

(* ===================================================================== *)
(** ** The script                                                         *)
(* ===================================================================== *)

(** [class Logger]: the path of the log file and the two directory names
    that appear in the messages ([self.src] and [self.dst]). *)
Record Logger := {
  log_file_path : path;
  logger_src : string;
  logger_dst : string
}.

Definition msg_sync_start (src dst : string) : string :=
  "Syncing files from " +:+ src +:+ " to " +:+ dst.
Definition msg_sync_end (src dst : string) : string :=
  "Sync completed from " +:+ src +:+ " to " +:+ dst.
Definition msg_copy (file src dst : string) : string :=
  "Copying " +:+ file +:+ " from " +:+ src +:+ " to " +:+ dst.
Definition msg_remove (file dst : string) : string :=
  "Removing " +:+ file +:+ " from " +:+ dst.

(** The line that [Logger.log] writes for [message] at time [t]. *)
Definition log_line (t : struct_time) (message : string) : string :=
  strftime t +:+ ": " +:+ message +:+ newline.

Section Script.

(** What the environment decides: the local time at each reading of the
    clock, and the order in which [os.listdir] returns the names of a
    directory. *)
Context (clock : nat -> struct_time) (ls : directory -> list string).

(** [print(line)] *)
Definition print (line : string) : M unit := fun w =>
  (World (fs w) (ticks w) (stdout w ++ [line]) (trace w ++ [Stdout line]), Ok tt).

(** [Logger.log]: open the log file for appending and write one line. *)
Definition log (self : Logger) (message : string) : M unit := fun w =>
  let now := clock (ticks w) in
  match fs_append (log_file_path self) (log_line now message) now (fs w) with
  | Some m => (World m (S (ticks w)) (stdout w) (trace w ++ [Log message]), Ok tt)
  | None => (record (Log message) w, Raise (LogFileError (log_file_path self)))
  end.

Definition log_sync_start (self : Logger) : M unit :=
  log self (msg_sync_start (logger_src self) (logger_dst self)).

Definition log_sync_end (self : Logger) : M unit :=
  log self (msg_sync_end (logger_src self) (logger_dst self)).

Definition log_copy (self : Logger) (file : string) : M unit :=
  log self (msg_copy file (logger_src self) (logger_dst self)).

Definition log_remove (self : Logger) (file : string) : M unit :=
  log self (msg_remove file (logger_dst self)).

(** [hash_file]: the MD5 digest, in hexadecimal, of all the bytes of the
    file. *)
Definition hash_file (file_path : path) : M string := fun w =>
  match fs_read file_path (fs w) with
  | Some bytes => (record (ReadFile file_path) w, Ok (MD5.hexdigest bytes))
  | None => (record (ReadFile file_path) w, Raise (HashComputationError file_path))
  end.

(** [os.listdir(dir)] *)
Definition os_listdir (dir : string) : M (list string) := fun w =>
  match fs w !! dir with
  | Some d => (record (Listdir dir) w, Ok (ls d))
  | None => (record (Listdir dir) w, Raise (DirectoryAccessError dir))
  end.

(** [shutil.copy(from, dstdir)] *)
Definition shutil_copy (from : path) (dstdir : string) : M unit := fun w =>
  let existed :=
    bool_decide (is_Some (entry_at (fs w) (os_path_join dstdir (basename from)))) in
  match fs_copy from dstdir (clock (ticks w)) (fs w) with
  | Some m =>
      (World m (S (ticks w)) (stdout w) (trace w ++ [Copy from dstdir existed]), Ok tt)
  | None => (record (Copy from dstdir existed) w, Raise (CopyError from dstdir))
  end.

(** [os.remove(p)] *)
Definition os_remove (p : path) : M unit := fun w =>
  match fs_remove p (fs w) with
  | Some m => (World m (ticks w) (stdout w) (trace w ++ [Remove p]), Ok tt)
  | None => (record (Remove p) w, Raise (RemoveError p))
  end.

(** The first loop of [sync], lines 57-71: one iteration. *)
Definition sync_file (verbose : bool) (src dst : string) (logger : Logger)
    (dst_files : list string) (file : string) : M unit :=
  if bool_decide (file ∉ dst_files) then
    when verbose (print (msg_copy file src dst)) ;;
    log_copy logger file ;;
    shutil_copy (os_path_join src file) dst
  else
    src_hash ← hash_file (os_path_join src file) ;
    dst_hash ← hash_file (os_path_join dst file) ;
    if bool_decide (src_hash ≠ dst_hash) then
      when verbose (print (msg_copy file src dst)) ;;
      log_copy logger file ;;
      shutil_copy (os_path_join src file) dst
    else mret tt.

(** The second loop of [sync], lines 74-79: one iteration. *)
Definition remove_file (verbose : bool) (dst : string) (logger : Logger)
    (src_files : list string) (file : string) : M unit :=
  if bool_decide (file ∉ src_files) then
    when verbose (print (msg_remove file dst)) ;;
    log_remove logger file ;;
    os_remove (os_path_join dst file)
  else mret tt.

(** [sync(src, dst, logger)]; [verbose] is the global [args.verbose]. *)
Definition sync (verbose : bool) (src dst : string) (logger : Logger) : M unit :=
  when verbose (print (msg_sync_start src dst)) ;;
  log_sync_start logger ;;
  src_files ← os_listdir src ;
  dst_files ← os_listdir dst ;
  for_each src_files (sync_file verbose src dst logger dst_files) ;;
  for_each dst_files (remove_file verbose dst logger src_files) ;;
  when verbose (print (msg_sync_end src dst)) ;;
  log_sync_end logger.

End Script.

(* ===================================================================== *)
(** ** The vocabulary of the properties                                   *)
(* ===================================================================== *)

(** [os.listdir] returns every name of the directory exactly once, in an
    order it chooses. *)
Definition listing_ok (ls : directory -> list string) : Prop :=
  forall d : directory, NoDup (ls d) /\ forall n, n ∈ ls d <-> is_Some (d !! n).

(** One possible order: the order of the map's own enumeration. *)
Definition listdir_sorted (d : directory) : list string := (map_to_list d).*1.

(** The log file can be opened for appending: its directory exists and the
    path does not name a subdirectory. *)
Definition log_writable (logger : Logger) (m : filesystem) : Prop :=
  exists d, m !! dirname (log_file_path logger) = Some d
            /\ d !! basename (log_file_path logger) <> Some Subdir.

Definition is_stdout (e : event) : bool :=
  match e with Stdout _ => true | _ => false end.
Definition is_copy (e : event) : bool :=
  match e with Copy _ _ _ => true | _ => false end.
Definition is_remove (e : event) : bool :=
  match e with Remove _ => true | _ => false end.
Definition is_read (e : event) : bool :=
  match e with ReadFile _ => true | _ => false end.

(** The lines printed and the messages logged by a sequence of calls. *)
Definition printed (evs : list event) : list string :=
  omap (fun e => match e with Stdout l => Some l | _ => None end) evs.
Definition logged (evs : list event) : list string :=
  omap (fun e => match e with Log m => Some m | _ => None end) evs.

(** The calls other than [print]. *)
Definition calls (evs : list event) : list event :=
  List.filter (fun e => negb (is_stdout e)) evs.

(** *** Relations between the world before and after a computation *)

Definition preserves (R : relation world) {A} (m : M A) : Prop :=
  forall w, R w (m w).1.

(** Only the entries in [T] differ. *)
Definition touched_only (T : path -> Prop) : relation world := fun w w' =>
  forall q, entry_at (fs w') q <> entry_at (fs w) q -> T q.

(** No directory appears or disappears. *)
Definition same_dirs : relation world := fun w w' =>
  forall d, is_Some (fs w' !! d) <-> is_Some (fs w !! d).

(** The calls made in between satisfy [P], and the standard output has
    grown by the lines they print. *)
Definition emitted (P : list event -> Prop) : relation world := fun w w' =>
  exists evs : list event,
    trace w' = (trace w ++ evs)%list
    /\ stdout w' = (stdout w ++ printed evs)%list
    /\ P evs.

(** Properties of call sequences that hold of the empty sequence and of the
    concatenation of two sequences that have them. *)
Class Closed (P : list event -> Prop) : Prop := {
  closed_nil : P [];
  closed_app : forall a b : list event, P a -> P b -> P (a ++ b)%list
}.

(** What remains of a world when the standard output is ignored. *)
Definition erase (w : world) : filesystem * nat * list event :=
  (fs w, ticks w, calls (trace w)).

(** Two computations that cannot be told apart without the standard
    output. *)
Definition oblivious {A} (m1 m2 : M A) : Prop :=
  forall w1 w2, erase w1 = erase w2 ->
    erase (m1 w1).1 = erase (m2 w2).1 /\ (m1 w1).2 = (m2 w2).2.

(** *** The calls of each part of the script *)

(** What a [print] under [if args.verbose] records. *)
Definition say (verbose : bool) (line : string) : list event :=
  if verbose then [Stdout line] else [].

(** The calls of "log the copy, then copy", cut short when the log fails. *)
Definition copy_events (verbose : bool) (src dst : string) (logger : Logger)
    (file : string) (evs : list event) : Prop :=
  let announce :=
    (say verbose (msg_copy file src dst)
     ++ [Log (msg_copy file (logger_src logger) (logger_dst logger))])%list in
  evs = announce
  \/ exists b, evs = (announce ++ [Copy (Path src file) dst b])%list.

(** The calls of one iteration of the first loop. *)
Definition sync_file_events (verbose : bool) (src dst : string) (logger : Logger)
    (file : string) (evs : list event) : Prop :=
  copy_events verbose src dst logger file evs
  \/ evs = [ReadFile (Path src file)]
  \/ evs = [ReadFile (Path src file); ReadFile (Path dst file)]
  \/ exists tl, copy_events verbose src dst logger file tl
       /\ evs = ([ReadFile (Path src file); ReadFile (Path dst file)] ++ tl)%list.

(** The calls of one iteration of the second loop. *)
Definition remove_file_events (verbose : bool) (dst : string) (logger : Logger)
    (file : string) (evs : list event) : Prop :=
  let announce :=
    (say verbose (msg_remove file dst)
     ++ [Log (msg_remove file (logger_dst logger))])%list in
  evs = [] \/ evs = announce
  \/ evs = (announce ++ [Remove (Path dst file)])%list.

(** The calls that open a pass: the start line, then the two listings. *)
Definition start_events (verbose : bool) (src dst : string) (logger : Logger)
    (evs : list event) : Prop :=
  let announce :=
    (say verbose (msg_sync_start src dst)
     ++ [Log (msg_sync_start (logger_src logger) (logger_dst logger))])%list in
  evs = announce
  \/ evs = (announce ++ [Listdir src])%list
  \/ evs = (announce ++ [Listdir src; Listdir dst])%list.

(** The calls that close a pass. *)
Definition end_events (verbose : bool) (src dst : string) (logger : Logger)
    : list event :=
  (say verbose (msg_sync_end src dst)
   ++ [Log (msg_sync_end (logger_src logger) (logger_dst logger))])%list.

(** *** The parts of [sync] *)

(** Lines 48-50: the start of the pass is announced. *)
Definition sync_open (clock : nat -> struct_time) (verbose : bool)
    (src dst : string) (logger : Logger) : M unit :=
  when verbose (print (msg_sync_start src dst)) ;;
  log_sync_start clock logger.

(** Lines 57-84: the two loops and the end of the pass, once both listings
    are taken. *)
Definition sync_rest (clock : nat -> struct_time) (verbose : bool)
    (src dst : string) (logger : Logger) (src_files dst_files : list string)
    : M unit :=
  for_each src_files (sync_file clock verbose src dst logger dst_files) ;;
  for_each dst_files (remove_file clock verbose dst logger src_files) ;;
  when verbose (print (msg_sync_end src dst)) ;;
  log_sync_end clock logger.

(** The world in which the loops start: both listings have been taken. *)
Definition listed (src dst : string) (w : world) : world :=
  record (Listdir dst) (record (Listdir src) w).

(** *** Log lines and the actions they announce *)

(** The message that announces a copy or a removal. *)
Definition announcement (logger : Logger) (e : event) : option string :=
  match e with
  | Copy from _ _ =>
      Some (msg_copy (basename from) (logger_src logger) (logger_dst logger))
  | Remove p => Some (msg_remove (basename p) (logger_dst logger))
  | _ => None
  end.

(** Every copy and every removal comes immediately after the [Logger.log]
    call that announces it; [prev] is the call before the sequence. *)
Fixpoint announced_after (logger : Logger) (prev : option event)
    (evs : list event) : Prop :=
  match evs with
  | [] => True
  | e :: rest =>
      match announcement logger e with
      | Some m => prev = Some (Log m)
      | None => True
      end
      /\ announced_after logger (Some e) rest
  end.

Definition announced (logger : Logger) (evs : list event) : Prop :=
  announced_after logger None evs.

Definition is_listdir (e : event) : bool :=
  match e with Listdir _ => true | _ => false end.

(** The log file ends with the line of [message]. *)
Definition log_ends_with (logger : Logger) (m : filesystem) (message : string) : Prop :=
  exists f old t,
    entry_at m (log_file_path logger) = Some (Regular f)
    /\ data f = old +:+ log_line t message.

(** What the log file says when a pass stops on a failed copy, a failed
    removal or a failed listing: its last line announces the call that
    failed (for a listing, the pass). *)
Definition explained (logger : Logger) (m : filesystem) (e : error) : Prop :=
  match e with
  | CopyError from _ =>
      log_ends_with logger m
        (msg_copy (basename from) (logger_src logger) (logger_dst logger))
  | RemoveError p =>
      log_ends_with logger m (msg_remove (basename p) (logger_dst logger))
  | DirectoryAccessError _ =>
      log_ends_with logger m
        (msg_sync_start (logger_src logger) (logger_dst logger))
  | _ => True
  end.


(** The bytes of the file at [p]; nothing when there is no such file. *)
Definition content (m : filesystem) (p : path) : string :=
  match entry_at m p with
  | Some (Regular f) => data f
  | _ => ""
  end.

(** *** The shape of a time stamp *)



(** What every call preserves: no directory appears or disappears, no entry
    becomes a subdirectory, and a regular file stays one unless it is one
    of the files in [T], which may be removed. *)
Definition evolves (T : path -> Prop) : relation world := fun w w' =>
  same_dirs w w'
  /\ (forall q, entry_at (fs w') q = Some Subdir -> entry_at (fs w) q = Some Subdir)
  /\ (forall q f, entry_at (fs w) q = Some (Regular f) ->
        (exists f', entry_at (fs w') q = Some (Regular f')) \/ T q).

(** *** What a completed pass leaves *)




(** *** Concrete worlds

    The worlds on which the theorems are instantiated and the claims that
    fail are refuted. *)

(** A clock that advances by one second at each reading. *)
Definition example_clock (n : nat) : struct_time :=
  StructTime 2024 3 15 12 (n / 60) (n mod 60).

Definition long_ago : struct_time := StructTime 2019 7 4 9 30 0.

Definition plain_file (bytes : string) : entry :=
  Regular (File bytes default_mode long_ago).

(** The scenario of two files to create and update and one to delete. *)
Definition example_fs : filesystem :=
  {[ "S" := {[ "a.txt" := plain_file "hello"; "b.txt" := plain_file "world" ]};
     "D" := {[ "b.txt" := plain_file "WORLD"; "c.txt" := plain_file "stale" ]};
     "L" := ∅ ]}.

Definition example_world : world := World example_fs 0 [] [].

(** A logger whose log file lies outside both directories. *)
Definition example_logger : Logger :=
  {| log_file_path := Path "L" "sync.log"; logger_src := "S"; logger_dst := "D" |}.

(** The same source, a destination that does not exist. *)
Definition no_destination : world :=
  World {[ "S" := {[ "a.txt" := plain_file "hello" ]}; "L" := ∅ ]} 0 [] [].







(** *** Checks that compute *)




(** *** The program: the [__main__] block *)





(** *** More vocabulary *)

(** A subdirectory stays one. *)
Definition keeps_subdirs : relation world := fun w w' =>
  forall q, entry_at (fs w) q = Some Subdir -> entry_at (fs w') q = Some Subdir.

(** The [shutil.copy] calls and the [os.remove] calls of a sequence, with
    their arguments. *)
Definition copies (evs : list event) : list (path * string) :=
  omap (fun e => match e with Copy from d _ => Some (from, d) | _ => None end) evs.
Definition removals (evs : list event) : list path :=
  omap (fun e => match e with Remove p => Some p | _ => None end) evs.

(** The names of [l] that are not in [k], in the order of [l]. *)
Definition names_not_in (k l : list string) : list string :=
  List.filter (fun n => bool_decide (n ∉ k)) l.



(** The copies made between two worlds are among [C], in that order, and the
    removals among [R]. *)
Definition made (C : list (path * string)) (R : list path) : relation world :=
  fun w w' =>
    exists evs : list event,
      trace w' = (trace w ++ evs)%list
      /\ copies evs `sublist_of` C /\ removals evs `sublist_of` R.

(** The lines that [Logger.log] writes for [messages] when the clock is read
    at the ticks [ks]. *)
Fixpoint log_lines (clock : nat -> struct_time) (ks : list nat)
    (messages : list string) : string :=
  match ks, messages with
  | k :: ks', m :: messages' => log_line (clock k) m +:+ log_lines clock ks' messages'
  | _, _ => ""
  end.

(** While the log file can be written, it grows by one line for each message
    logged, in the order of the calls; the time stamps are readings of the
    clock at increasing ticks, and the clock is read at most once for each
    message logged and each copy made. *)
Definition log_records (clock : nat -> struct_time) (logger : Logger)
    : relation world := fun w w' =>
  log_writable logger (fs w) ->
  log_writable logger (fs w')
  /\ exists (evs : list event) (ks : list nat),
       trace w' = (trace w ++ evs)%list
       /\ length ks = length (logged evs)
       /\ StronglySorted lt ks
       /\ Forall (fun k => ticks w <= k < ticks w') ks
       /\ ticks w <= ticks w' <= ticks w + length (logged evs) + length (copies evs)
       /\ content (fs w') (log_file_path logger)
          = content (fs w) (log_file_path logger) +:+ log_lines clock ks (logged evs).




(* ===================================================================== *)
(** ** MD5 test vectors                                                   *)
(* ===================================================================== *)

Example md5_empty : MD5.hexdigest "" = "d41d8cd98f00b204e9800998ecf8427e".
Proof. vm_compute. reflexivity. Qed.

Example md5_abc : MD5.hexdigest "abc" = "900150983cd24fb0d6963f7d28e17f72".
Proof. vm_compute. reflexivity. Qed.

Example md5_alphabet :
  MD5.hexdigest "abcdefghijklmnopqrstuvwxyz" = "c3fcd3d76192e4007dfb496cca67e13b".
Proof. vm_compute. reflexivity. Qed.

(* ===================================================================== *)
(** ** The monad                                                          *)
(* ===================================================================== *)

Lemma bind_run {A B} (m : M A) (f : A -> M B) w :
  (m ≫= f) w = match m w with
               | (w', Ok a) => f a w'
               | (w', Raise e) => (w', Raise e)
               end.
Proof. reflexivity. Qed.



Section Preserve.

Context (R : relation world) `{!Reflexive R} `{!Transitive R}.

Lemma preserves_ret {A} (a : A) : preserves R (mret a).
Proof. intros w. simpl. reflexivity. Qed.

Lemma preserves_bind {A B} (m : M A) (f : A -> M B) :
  preserves R m -> (forall a, preserves R (f a)) -> preserves R (m ≫= f).
Proof.
  intros Hm Hf w. rewrite bind_run. specialize (Hm w).
  destruct (m w) as [w1 [a|e]]; simpl in *; [|exact Hm].
  etransitivity; [exact Hm | apply Hf].
Qed.

Lemma preserves_when (c : bool) (m : M unit) :
  preserves R m -> preserves R (when c m).
Proof. intros Hm. destruct c; [exact Hm | apply preserves_ret]. Qed.

Lemma preserves_for_each {A} (l : list A) (body : A -> M unit) :
  (forall x, x ∈ l -> preserves R (body x)) -> preserves R (for_each l body).
Proof.
  induction l as [|x l IH]; intros Hb; simpl.
  - apply preserves_ret.
  - apply preserves_bind.
    + apply Hb. left.
    + intros _. apply IH. intros y Hy. apply Hb. right. exact Hy.
Qed.

End Preserve.

#[global] Instance touched_only_refl T : Reflexive (touched_only T).
Proof. intros w q H. congruence. Qed.

#[global] Instance touched_only_trans T : Transitive (touched_only T).
Proof.
  intros w1 w2 w3 H12 H23 q H.
  destruct (decide (entry_at (fs w2) q = entry_at (fs w1) q)) as [E|E].
  - apply H23. congruence.
  - apply H12, E.
Qed.

#[global] Instance same_dirs_refl : Reflexive same_dirs.
Proof. intros w d. reflexivity. Qed.

#[global] Instance same_dirs_trans : Transitive same_dirs.
Proof. intros w1 w2 w3 H12 H23 d. etransitivity; [apply H23 | apply H12]. Qed.

Lemma touched_only_mono (T T' : path -> Prop) w w' :
  (forall q, T q -> T' q) -> touched_only T w w' -> touched_only T' w w'.
Proof. intros HT H q Hq. apply HT, H, Hq. Qed.

Lemma preserves_mono (R R' : relation world) {A} (m : M A) :
  (forall w w', R w w' -> R' w w') -> preserves R m -> preserves R' m.
Proof. intros HR H w. apply HR, H. Qed.

(* ===================================================================== *)
(** ** The file-system operations                                         *)
(* ===================================================================== *)

Lemma entry_at_insert (m : filesystem) (dir : string) (d : directory) (q : path) :
  entry_at (<[dir := d]> m) q
  = if decide (dir = dirname q) then d !! basename q else entry_at m q.
Proof.
  unfold entry_at. rewrite lookup_insert. destruct (decide (dir = dirname q)); reflexivity.
Qed.

Lemma entry_at_lookup (m : filesystem) (dir : string) (d : directory) (n : string) :
  m !! dir = Some d -> entry_at m (Path dir n) = d !! n.
Proof. intros H. unfold entry_at. simpl. rewrite H. reflexivity. Qed.

(** Replacing a directory by one that differs at a single name changes a
    single entry. *)
Lemma entry_at_update (m : filesystem) (dir x : string) (d d' : directory) (q : path) :
  m !! dir = Some d ->
  (forall n, n <> x -> d' !! n = d !! n) ->
  q <> Path dir x ->
  entry_at (<[dir := d']> m) q = entry_at m q.
Proof.
  intros Hd Hagree Hq. rewrite entry_at_insert.
  destruct (decide (dir = dirname q)) as [E|E]; [|reflexivity].
  unfold entry_at. rewrite <- E, Hd. apply Hagree.
  intros Hx. apply Hq. destruct q; simpl in *; congruence.
Qed.

Lemma insert_same_dirs (m : filesystem) (dir : string) (d d' : directory) (k : string) :
  m !! dir = Some d ->
  is_Some (<[dir := d']> m !! k) <-> is_Some (m !! k).
Proof.
  intros Hd. rewrite lookup_insert. destruct (decide (dir = k)) as [<-|]; [|reflexivity].
  rewrite Hd. split; eauto.
Qed.

Lemma fs_append_other p text now m m' q :
  fs_append p text now m = Some m' -> q <> p -> entry_at m' q = entry_at m q.
Proof.
  unfold fs_append. intros H Hq.
  destruct (m !! dirname p) as [d|] eqn:Hd; [|discriminate].
  assert (Hp : q <> Path (dirname p) (basename p)) by (destruct p; exact Hq).
  destruct (d !! basename p) as [[f|]|] eqn:He; simplify_eq;
    (eapply entry_at_update; [exact Hd | | exact Hp]);
    intros n Hn; apply lookup_insert_ne; congruence.
Qed.

Lemma fs_append_dirs p text now m m' k :
  fs_append p text now m = Some m' -> is_Some (m' !! k) <-> is_Some (m !! k).
Proof.
  unfold fs_append. intros H.
  destruct (m !! dirname p) as [d|] eqn:Hd; [|discriminate].
  destruct (d !! basename p) as [[f|]|]; simplify_eq;
    eapply insert_same_dirs; exact Hd.
Qed.

(** After an append the file holds what it held, followed by the text. *)
Lemma fs_append_self p text now m m' :
  fs_append p text now m = Some m' ->
  exists f, entry_at m' p = Some (Regular f) /\ mtime f = now
    /\ ((exists g, entry_at m p = Some (Regular g)
                  /\ data f = data g +:+ text /\ mode f = mode g)
        \/ (entry_at m p = None /\ data f = text /\ mode f = default_mode)).
Proof.
  unfold fs_append, entry_at. intros H.
  destruct (m !! dirname p) as [d|] eqn:Hd; [|discriminate].
  destruct (d !! basename p) as [[g|]|] eqn:He; simplify_eq;
    rewrite lookup_insert_eq, lookup_insert_eq; eexists; (split; [reflexivity|]);
    (split; [reflexivity|]).
  - left. exists g. auto.
  - right. auto.
Qed.


Lemma fs_copy_inv from dstdir now m m' :
  fs_copy from dstdir now m = Some m' ->
  exists f d, entry_at m from = Some (Regular f) /\ m !! dstdir = Some d
    /\ dirname from <> dstdir /\ d !! basename from <> Some Subdir
    /\ m' = <[dstdir := <[basename from := Regular (File (data f) (mode f) now)]> d]> m.
Proof.
  unfold fs_copy. intros H.
  destruct (entry_at m from) as [[f|]|]; try discriminate.
  destruct (m !! dstdir) as [d|]; [|discriminate].
  destruct (decide (dirname from = dstdir)); [discriminate|].
  exists f, d. destruct (d !! basename from) as [[g|]|]; simplify_eq; repeat split; auto; congruence.
Qed.

Lemma fs_copy_other from dstdir now m m' q :
  fs_copy from dstdir now m = Some m' ->
  q <> Path dstdir (basename from) -> entry_at m' q = entry_at m q.
Proof.
  intros H Hq. apply fs_copy_inv in H as (f & d & _ & Hd & _ & _ & ->).
  eapply entry_at_update; [exact Hd | | exact Hq].
  intros n Hn. apply lookup_insert_ne. congruence.
Qed.

Lemma fs_copy_self from dstdir now m m' :
  fs_copy from dstdir now m = Some m' ->
  exists f, entry_at m from = Some (Regular f)
    /\ entry_at m' from = Some (Regular f)
    /\ entry_at m' (Path dstdir (basename from))
       = Some (Regular (File (data f) (mode f) now))
    /\ dirname from <> dstdir.
Proof.
  intros H. pose proof (fs_copy_other _ _ _ _ _ from H) as Hfrom.
  apply fs_copy_inv in H as (f & d & Hf & Hd & Hne & _ & ->).
  exists f. split; [exact Hf|]. split.
  - rewrite Hfrom; [exact Hf|]. destruct from; simpl in *. congruence.
  - split; [|exact Hne]. unfold entry_at. simpl. rewrite !lookup_insert_eq. reflexivity.
Qed.

Lemma fs_copy_dirs from dstdir now m m' k :
  fs_copy from dstdir now m = Some m' -> is_Some (m' !! k) <-> is_Some (m !! k).
Proof.
  intros H. apply fs_copy_inv in H as (f & d & _ & Hd & _ & _ & ->).
  eapply insert_same_dirs; exact Hd.
Qed.


Lemma fs_remove_inv p m m' :
  fs_remove p m = Some m' ->
  exists f d, m !! dirname p = Some d /\ d !! basename p = Some (Regular f)
    /\ m' = <[dirname p := delete (basename p) d]> m.
Proof.
  unfold fs_remove. intros H.
  destruct (m !! dirname p) as [d|]; [|discriminate].
  destruct (d !! basename p) as [[f|]|] eqn:Hf; simplify_eq.
  exists f, d. auto.
Qed.

Lemma fs_remove_other p m m' q :
  fs_remove p m = Some m' -> q <> p -> entry_at m' q = entry_at m q.
Proof.
  intros H Hq. apply fs_remove_inv in H as (f & d & Hd & _ & ->).
  eapply (entry_at_update _ _ (basename p)); [exact Hd | | destruct p; exact Hq].
  intros n Hn. apply lookup_delete_ne. congruence.
Qed.

Lemma fs_remove_self p m m' :
  fs_remove p m = Some m' ->
  (exists f, entry_at m p = Some (Regular f)) /\ entry_at m' p = None.
Proof.
  intros H. apply fs_remove_inv in H as (f & d & Hd & Hf & ->). split.
  - exists f. unfold entry_at. rewrite Hd. exact Hf.
  - unfold entry_at. rewrite lookup_insert_eq. apply lookup_delete_eq.
Qed.

Lemma fs_remove_dirs p m m' k :
  fs_remove p m = Some m' -> is_Some (m' !! k) <-> is_Some (m !! k).
Proof.
  intros H. apply fs_remove_inv in H as (f & d & Hd & _ & ->).
  eapply insert_same_dirs; exact Hd.
Qed.



(* ===================================================================== *)
(** ** What each call touches                                             *)
(* ===================================================================== *)

Section Footprint.

Context (clock : nat -> struct_time) (ls : directory -> list string).

Lemma print_touched T line : preserves (touched_only T) (print line).
Proof. intros w q H. simpl in H. congruence. Qed.

Lemma log_touched (T : path -> Prop) logger msg :
  T (log_file_path logger) -> preserves (touched_only T) (log clock logger msg).
Proof.
  intros HT w q H. unfold log in H.
  destruct (fs_append _ _ _ _) as [m|] eqn:E; simpl in H; [|congruence].
  destruct (decide (q = log_file_path logger)) as [->|Hq]; [exact HT|].
  exfalso. apply H. eapply fs_append_other; eauto.
Qed.

Lemma hash_file_touched T p : preserves (touched_only T) (hash_file p).
Proof.
  intros w q H. unfold hash_file in H.
  destruct (fs_read p (fs w)); simpl in H; congruence.
Qed.

Lemma os_listdir_touched T dir : preserves (touched_only T) (os_listdir ls dir).
Proof.
  intros w q H. unfold os_listdir in H.
  destruct (fs w !! dir); simpl in H; congruence.
Qed.

Lemma shutil_copy_touched (T : path -> Prop) from dstdir :
  (dirname from <> dstdir -> T (Path dstdir (basename from))) ->
  preserves (touched_only T) (shutil_copy clock from dstdir).
Proof.
  intros HT w q H. unfold shutil_copy in H.
  destruct (fs_copy _ _ _ _) as [m|] eqn:E; simpl in H; [|congruence].
  destruct (decide (q = Path dstdir (basename from))) as [->|Hq].
  - apply HT. apply fs_copy_self in E as (f & _ & _ & _ & Hne). exact Hne.
  - exfalso. apply H. eapply fs_copy_other; eauto.
Qed.

Lemma os_remove_touched (T : path -> Prop) p :
  T p -> preserves (touched_only T) (os_remove p).
Proof.
  intros HT w q H. unfold os_remove in H.
  destruct (fs_remove _ _) as [m|] eqn:E; simpl in H; [|congruence].
  destruct (decide (q = p)) as [->|Hq]; [exact HT|].
  exfalso. apply H. eapply fs_remove_other; eauto.
Qed.

(** One iteration of the first loop touches the log file and, unless the
    two directories are the same, the entry of its file in the destination. *)
Lemma sync_file_touched verbose src dst logger dst_files file :
  preserves
    (touched_only (fun q => q = log_file_path logger
                            \/ (q = Path dst file /\ src <> dst)))
    (sync_file clock verbose src dst logger dst_files file).
Proof.
  assert (Hcopy : preserves
    (touched_only (fun q => q = log_file_path logger
                            \/ (q = Path dst file /\ src <> dst)))
    (when verbose (print (msg_copy file src dst)) ;;
     log_copy clock logger file ;;
     shutil_copy clock (os_path_join src file) dst)).
  { apply preserves_bind; [typeclasses eauto.. | |intros _].
    - apply preserves_when; [typeclasses eauto.. |]. apply print_touched.
    - apply preserves_bind; [typeclasses eauto.. | |intros _].
      + apply log_touched. left. reflexivity.
      + apply shutil_copy_touched. simpl. intros H. right. auto. }
  unfold sync_file. case_bool_decide; [exact Hcopy|].
  apply preserves_bind; [typeclasses eauto.. | apply hash_file_touched |intros h1].
  apply preserves_bind; [typeclasses eauto.. | apply hash_file_touched |intros h2].
  case_bool_decide; [exact Hcopy|]. apply preserves_ret. typeclasses eauto.
Qed.

(** One iteration of the second loop touches the log file and the entry of
    its file in the destination, when the file is not a source file. *)
Lemma remove_file_touched verbose dst logger src_files file :
  preserves
    (touched_only (fun q => q = log_file_path logger
                            \/ (q = Path dst file /\ file ∉ src_files)))
    (remove_file clock verbose dst logger src_files file).
Proof.
  unfold remove_file. case_bool_decide; [|apply preserves_ret; typeclasses eauto].
  apply preserves_bind; [typeclasses eauto.. | |intros _].
  - apply preserves_when; [typeclasses eauto.. |]. apply print_touched.
  - apply preserves_bind; [typeclasses eauto.. | |intros _].
    + apply log_touched. left. reflexivity.
    + apply os_remove_touched. right. auto.
Qed.

End Footprint.

(* ===================================================================== *)
(** ** The calls each part of the script makes                            *)
(* ===================================================================== *)

#[global] Instance emitted_refl P `{!Closed P} : Reflexive (emitted P).
Proof.
  intros w. exists []. rewrite !app_nil_r. repeat split. apply closed_nil.
Qed.

#[global] Instance emitted_trans P `{!Closed P} : Transitive (emitted P).
Proof.
  intros w1 w2 w3 (e1 & Ht1 & Hs1 & H1) (e2 & Ht2 & Hs2 & H2).
  exists (e1 ++ e2)%list. rewrite Ht2, Ht1, Hs2, Hs1. unfold printed.
  rewrite omap_app, !app_assoc. repeat split. apply closed_app; assumption.
Qed.

Lemma emitted_mono (P Q : list event -> Prop) w w' :
  (forall evs, P evs -> Q evs) -> emitted P w w' -> emitted Q w w'.
Proof. intros HPQ (evs & Ht & Hs & HP). exists evs. auto. Qed.

Ltac emit_here :=
  eexists; split;
  [ simpl; rewrite <- ?app_assoc; simpl; reflexivity
  | split; [ simpl; rewrite <- ?app_assoc, ?app_nil_r; reflexivity | ] ].

(** Case analysis on the outcome of the file-system operations in the goal. *)
Ltac case_fs :=
  repeat match goal with
  | |- context [fs_append ?p ?t ?n ?m] =>
      let E := fresh "Eappend" in destruct (fs_append p t n m) eqn:E; simpl
  | |- context [fs_copy ?p ?d ?n ?m] =>
      let E := fresh "Ecopy" in destruct (fs_copy p d n m) eqn:E; simpl
  | |- context [fs_remove ?p ?m] =>
      let E := fresh "Eremove" in destruct (fs_remove p m) eqn:E; simpl
  | |- context [fs_read ?p ?m] =>
      let E := fresh "Eread" in destruct (fs_read p m) eqn:E; simpl
  end.

Ltac run_M := unfold mbind, M_bind, mret, M_ret.

Section Emits.

Context (clock : nat -> struct_time) (ls : directory -> list string).

Lemma copy_emits verbose src dst logger file :
  preserves (emitted (copy_events verbose src dst logger file))
    (when verbose (print (msg_copy file src dst)) ;;
     log_copy clock logger file ;;
     shutil_copy clock (os_path_join src file) dst).
Proof.
  intros w. unfold when, print, log_copy, log, shutil_copy, record, copy_events, say.
  run_M. destruct verbose; simpl; case_fs; emit_here; eauto.
Qed.

Lemma sync_file_emits verbose src dst logger dst_files file :
  preserves (emitted (sync_file_events verbose src dst logger file))
    (sync_file clock verbose src dst logger dst_files file).
Proof.
  intros w. unfold sync_file. case_bool_decide.
  { eapply emitted_mono; [|apply copy_emits]. intros evs Hc. left. exact Hc. }
  rewrite bind_run. unfold hash_file at 1.
  destruct (fs_read _ (fs w)) as [b1|].
  2:{ simpl. emit_here. right. left. reflexivity. }
  rewrite bind_run. unfold hash_file at 1. simpl.
  destruct (fs_read _ _) as [b2|].
  2:{ simpl. emit_here. right. right. left. reflexivity. }
  case_bool_decide.
  - destruct (copy_emits verbose src dst logger file
                (record (ReadFile (os_path_join dst file))
                   (record (ReadFile (os_path_join src file)) w)))
      as (tl & Ht & Hs & Htl).
    exists ([ReadFile (Path src file); ReadFile (Path dst file)] ++ tl)%list.
    split; [|split].
    + rewrite Ht. simpl. rewrite <- !app_assoc. reflexivity.
    + rewrite Hs. reflexivity.
    + right. right. right. exists tl. auto.
  - simpl. emit_here. right. right. left. reflexivity.
Qed.

Lemma remove_file_emits verbose dst logger src_files file :
  preserves (emitted (remove_file_events verbose dst logger file))
    (remove_file clock verbose dst logger src_files file).
Proof.
  intros w. unfold remove_file, remove_file_events. case_bool_decide.
  - unfold when, print, log_remove, log, os_remove, record, say. run_M.
    destruct verbose; simpl; case_fs; emit_here; auto.
  - exists []. simpl. rewrite !app_nil_r. auto.
Qed.

Lemma for_each_emits P `{!Closed P} {A} (l : list A) (body : A -> M unit) :
  (forall x, x ∈ l -> preserves (emitted P) (body x)) ->
  preserves (emitted P) (for_each l body).
Proof. apply preserves_for_each; typeclasses eauto. Qed.

End Emits.

(* ===================================================================== *)
(** ** The shape of a pass                                                *)
(* ===================================================================== *)

Section Shape.

Context (clock : nat -> struct_time) (ls : directory -> list string).

(** A pass announces its start, lists the source, lists the destination and
    runs the loops; it stops at the first call that raises. *)
Lemma sync_shape verbose src dst logger w :
  sync clock ls verbose src dst logger w =
  match sync_open clock verbose src dst logger w with
  | (w1, Raise e) => (w1, Raise e)
  | (w1, Ok _) =>
      match fs w1 !! src with
      | None => (record (Listdir src) w1, Raise (DirectoryAccessError src))
      | Some ds =>
          match fs w1 !! dst with
          | None => (listed src dst w1, Raise (DirectoryAccessError dst))
          | Some dd =>
              sync_rest clock verbose src dst logger (ls ds) (ls dd) (listed src dst w1)
          end
      end
  end.
Proof.
  unfold sync, sync_open, sync_rest, listed.
  rewrite !bind_run.
  destruct (when verbose (print (msg_sync_start src dst)) w) as [w0 [[]|e]]; [|reflexivity].
  rewrite bind_run.
  destruct (log_sync_start clock logger w0) as [w1 [[]|e]]; [|reflexivity].
  rewrite bind_run. unfold os_listdir at 1.
  destruct (fs w1 !! src) as [ds|]; [|reflexivity].
  rewrite bind_run. unfold os_listdir at 1. simpl.
  destruct (fs w1 !! dst) as [dd|]; reflexivity.
Qed.

Lemma sync_open_emits verbose src dst logger :
  preserves
    (emitted (fun evs =>
       evs = (say verbose (msg_sync_start src dst)
              ++ [Log (msg_sync_start (logger_src logger) (logger_dst logger))])%list))
    (sync_open clock verbose src dst logger).
Proof.
  intros w. unfold sync_open, when, print, log_sync_start, log, record, say. run_M.
  destruct verbose; simpl; case_fs; emit_here; auto.
Qed.

Lemma sync_close_emits verbose src dst logger :
  preserves (emitted (fun evs => evs = end_events verbose src dst logger))
    (when verbose (print (msg_sync_end src dst)) ;; log_sync_end clock logger).
Proof.
  intros w. unfold end_events, when, print, log_sync_end, log, record, say. run_M.
  destruct verbose; simpl; case_fs; emit_here; auto.
Qed.

End Shape.

Section Trace.

Context (clock : nat -> struct_time) (ls : directory -> list string).

Lemma printed_app (a b : list event) : printed (a ++ b) = (printed a ++ printed b)%list.
Proof. apply omap_app. Qed.

Lemma sync_rest_trace (P1 P2 : list event -> Prop) `{!Closed P1} `{!Closed P2}
    verbose src dst logger src_files dst_files :
  (forall file evs, sync_file_events verbose src dst logger file evs -> P1 evs) ->
  (forall file evs, remove_file_events verbose dst logger file evs -> P2 evs) ->
  forall w, exists e1 e2 e3 : list event,
    let r := sync_rest clock verbose src dst logger src_files dst_files w in
    trace r.1 = (trace w ++ e1 ++ e2 ++ e3)%list
    /\ stdout r.1 = (stdout w ++ printed (e1 ++ e2 ++ e3))%list
    /\ P1 e1 /\ P2 e2
    /\ (e3 = [] \/ e3 = end_events verbose src dst logger)
    /\ (r.2 = Ok tt -> e3 = end_events verbose src dst logger).
Proof.
  intros H1 H2 w. unfold sync_rest. rewrite bind_run.
  destruct (for_each_emits P1 src_files
              (sync_file clock verbose src dst logger dst_files)) with (w := w)
    as (e1 & Ht1 & Hs1 & HP1).
  { intros x _. eapply preserves_mono; [|apply sync_file_emits].
    intros ? ?. apply emitted_mono, H1. }
  destruct (for_each src_files _ w) as [w4 [[]|e]]; simpl in *.
  2:{ exists e1, [], []. simpl. rewrite !app_nil_r.
      repeat split; auto; try apply closed_nil. discriminate. }
  rewrite bind_run.
  destruct (for_each_emits P2 dst_files
              (remove_file clock verbose dst logger src_files)) with (w := w4)
    as (e2 & Ht2 & Hs2 & HP2).
  { intros x _. eapply preserves_mono; [|apply remove_file_emits].
    intros ? ?. apply emitted_mono, H2. }
  destruct (for_each dst_files _ w4) as [w5 [[]|e]]; simpl in *.
  2:{ exists e1, e2, []. simpl. rewrite !app_nil_r, printed_app.
      rewrite Ht2, Ht1, Hs2, Hs1, <- !app_assoc.
      repeat split; auto. discriminate. }
  destruct (sync_close_emits clock verbose src dst logger w5) as (e3 & Ht3 & Hs3 & ->).
  exists e1, e2, (end_events verbose src dst logger). simpl.
  rewrite Ht3, Ht2, Ht1, Hs3, Hs2, Hs1, !printed_app, <- !app_assoc.
  repeat split; auto.
Qed.

Lemma sync_trace (P1 P2 : list event -> Prop) `{!Closed P1} `{!Closed P2}
    verbose src dst logger :
  (forall file evs, sync_file_events verbose src dst logger file evs -> P1 evs) ->
  (forall file evs, remove_file_events verbose dst logger file evs -> P2 evs) ->
  forall w, exists e0 e1 e2 e3 : list event,
    let r := sync clock ls verbose src dst logger w in
    trace r.1 = (trace w ++ e0 ++ e1 ++ e2 ++ e3)%list
    /\ stdout r.1 = (stdout w ++ printed (e0 ++ e1 ++ e2 ++ e3))%list
    /\ start_events verbose src dst logger e0
    /\ P1 e1 /\ P2 e2
    /\ (e3 = [] \/ e3 = end_events verbose src dst logger)
    /\ (r.2 = Ok tt ->
        e0 = (say verbose (msg_sync_start src dst)
              ++ [Log (msg_sync_start (logger_src logger) (logger_dst logger));
                  Listdir src; Listdir dst])%list
        /\ e3 = end_events verbose src dst logger).
Proof.
  intros H1 H2 w. rewrite sync_shape.
  destruct (sync_open_emits clock verbose src dst logger w) as (e0 & Ht0 & Hs0 & He0).
  destruct (sync_open clock verbose src dst logger w) as [w1 [[]|e]]; simpl in *.
  2:{ exists e0, [], [], []. simpl. rewrite !app_nil_r.
      repeat split; auto; try apply closed_nil; try discriminate. left. exact He0. }
  destruct (fs w1 !! src) as [ds|].
  2:{ exists (e0 ++ [Listdir src])%list, [], [], []. simpl. rewrite !app_nil_r, printed_app.
      simpl. rewrite app_nil_r, Ht0, <- app_assoc.
      repeat split; auto; try apply closed_nil; try discriminate.
      right. left. rewrite He0. reflexivity. }
  destruct (fs w1 !! dst) as [dd|].
  2:{ exists (e0 ++ [Listdir src; Listdir dst])%list, [], [], []. simpl.
      rewrite !app_nil_r, printed_app.
      simpl. rewrite app_nil_r, Ht0, <- !app_assoc.
      repeat split; auto; try apply closed_nil; try discriminate.
      right. right. rewrite He0. reflexivity. }
  destruct (sync_rest_trace P1 P2 verbose src dst logger (ls ds) (ls dd) H1 H2
              (listed src dst w1)) as (e1 & e2 & e3 & Ht & Hs & HP1 & HP2 & He3 & Hok).
  exists (e0 ++ [Listdir src; Listdir dst])%list, e1, e2, e3. simpl in *.
  rewrite Ht, Hs, Ht0, Hs0, !printed_app. simpl. rewrite app_nil_r, <- !app_assoc.
  repeat split; auto.
  - right. right. rewrite He0. reflexivity.
  - rewrite He0, <- app_assoc. reflexivity.
Qed.
End Trace.

(* ===================================================================== *)
(** ** Closed properties of call sequences                                *)
(* ===================================================================== *)

#[global] Instance Forall_closed (Q : event -> Prop) : Closed (Forall Q).
Proof. split; [constructor | intros a b Ha Hb; apply Forall_app; auto]. Qed.

#[global] Instance and_closed (P Q : list event -> Prop) `{!Closed P} `{!Closed Q} :
  Closed (fun evs => P evs /\ Q evs).
Proof.
  split.
  - split; apply closed_nil.
  - intros a b [] []. split; apply closed_app; assumption.
Qed.

#[global] Instance impl_closed (c : Prop) (P : list event -> Prop) `{!Closed P} :
  Closed (fun evs => c -> P evs).
Proof.
  split.
  - intros _. apply closed_nil.
  - intros a b Ha Hb Hc. apply closed_app; auto.
Qed.

Lemma announced_after_weaken logger prev evs :
  announced_after logger None evs -> announced_after logger prev evs.
Proof.
  destruct evs as [|e rest]; simpl; [auto|]. intros [H1 H2]. split; [|exact H2].
  destruct (announcement logger e); [discriminate | exact I].
Qed.

Lemma announced_after_app logger prev a b :
  announced_after logger prev a -> announced_after logger None b ->
  announced_after logger prev (a ++ b).
Proof.
  revert prev. induction a as [|e a IH]; intros prev Ha Hb; simpl in *.
  - apply announced_after_weaken, Hb.
  - destruct Ha as [H1 H2]. split; [exact H1 | apply IH; assumption].
Qed.

#[global] Instance announced_closed logger : Closed (announced logger).
Proof. split; [exact I | intros a b; apply announced_after_app]. Qed.

Lemma logged_app (a b : list event) : logged (a ++ b) = (logged a ++ logged b)%list.
Proof. apply omap_app. Qed.

#[global] Instance echo_closed : Closed (fun evs => printed evs = logged evs).
Proof.
  split; [reflexivity|]. intros a b Ha Hb. rewrite printed_app, logged_app. congruence.
Qed.

#[global] Instance silent_closed : Closed (fun evs => printed evs = []).
Proof.
  split; [reflexivity|]. intros a b Ha Hb. rewrite printed_app, Ha, Hb. reflexivity.
Qed.


(* ===================================================================== *)
(** ** Where a pass stops                                                 *)
(* ===================================================================== *)

Lemma for_each_raise {A} (l : list A) (body : A -> M unit) w w' e :
  for_each l body w = (w', Raise e) ->
  exists x w0, x ∈ l /\ body x w0 = (w', Raise e).
Proof.
  revert w. induction l as [|x l IH]; intros w H; simpl in H.
  - discriminate.
  - rewrite bind_run in H. destruct (body x w) as [w1 [[]|e1]] eqn:E.
    + destruct (IH _ H) as (y & w0 & Hy & Hb). exists y, w0. split; [right; exact Hy | exact Hb].
    + exists x, w. split; [left|]. congruence.
Qed.

Section Failure.

Context (clock : nat -> struct_time) (ls : directory -> list string).

Lemma log_ok_ends logger msg w w1 :
  log clock logger msg w = (w1, Ok tt) -> log_ends_with logger (fs w1) msg.
Proof.
  unfold log. destruct (fs_append _ _ _ _) as [m|] eqn:E; [|discriminate].
  intros H. injection H as <-. simpl.
  apply fs_append_self in E as (f & Hf & _ & [(g & _ & Hd & _)|(_ & Hd & _)]).
  - exists f, (data g), (clock (ticks w)). auto.
  - exists f, "", (clock (ticks w)). auto.
Qed.

Lemma announce_raise verbose line logger msg (act : M unit) w w' e :
  (when verbose (print line) ;; log clock logger msg ;; act) w = (w', Raise e) ->
  (forall w1, log_ends_with logger (fs w1) msg -> act w1 = (w', Raise e) ->
     explained logger (fs w') e) ->
  explained logger (fs w') e.
Proof.
  intros H Hact. rewrite bind_run in H.
  destruct (when verbose (print line) w) as [w0 [[]|e0]] eqn:E0.
  2:{ destruct verbose; discriminate. }
  rewrite bind_run in H. destruct (log clock logger msg w0) as [w1 [[]|e1]] eqn:E1.
  - eapply Hact; [|exact H]. eapply log_ok_ends; eauto.
  - unfold log in E1. destruct (fs_append _ _ _ _); simplify_eq. exact I.
Qed.

Lemma shutil_copy_raise from d w w' e :
  shutil_copy clock from d w = (w', Raise e) ->
  e = CopyError from d /\ fs w' = fs w.
Proof.
  unfold shutil_copy. destruct (fs_copy _ _ _ _); intros Hrun; simplify_eq. auto.
Qed.

Lemma sync_file_raise verbose src dst logger dst_files file w w' e :
  sync_file clock verbose src dst logger dst_files file w = (w', Raise e) ->
  explained logger (fs w') e.
Proof.
  assert (Hcopy : forall w,
    (when verbose (print (msg_copy file src dst)) ;;
     log_copy clock logger file ;;
     shutil_copy clock (os_path_join src file) dst) w = (w', Raise e) ->
    explained logger (fs w') e).
  { intros w0 H. eapply announce_raise; [exact H|].
    intros w1 Hlog Hc. apply shutil_copy_raise in Hc as [-> Hfs].
    simpl. rewrite Hfs. exact Hlog. }
  unfold sync_file. case_bool_decide; [apply Hcopy|].
  rewrite bind_run. unfold hash_file at 1.
  destruct (fs_read _ (fs w)); [|intros Hrun; simplify_eq; exact I].
  rewrite bind_run. unfold hash_file at 1. simpl.
  destruct (fs_read _ _); [|intros Hrun; simplify_eq; exact I].
  case_bool_decide; [apply Hcopy | discriminate].
Qed.

Lemma remove_file_raise verbose dst logger src_files file w w' e :
  remove_file clock verbose dst logger src_files file w = (w', Raise e) ->
  explained logger (fs w') e.
Proof.
  unfold remove_file. case_bool_decide; [|discriminate].
  intros Hrun. eapply announce_raise; [exact Hrun|].
  intros w1 Hlog Hr. unfold os_remove in Hr.
  destruct (fs_remove _ _); simplify_eq. simpl. exact Hlog.
Qed.

Lemma sync_open_ok verbose src dst logger w w1 :
  sync_open clock verbose src dst logger w = (w1, Ok tt) ->
  log_ends_with logger (fs w1) (msg_sync_start (logger_src logger) (logger_dst logger)).
Proof.
  unfold sync_open. rewrite bind_run.
  destruct (when verbose (print _) w) as [w0 [[]|e0]]; [|discriminate].
  apply log_ok_ends.
Qed.

Lemma log_raise logger msg w w' e :
  log clock logger msg w = (w', Raise e) -> explained logger (fs w') e.
Proof. unfold log. destruct (fs_append _ _ _ _); intros Hrun; simplify_eq. exact I. Qed.

Lemma sync_explained verbose src dst logger w w' e :
  sync clock ls verbose src dst logger w = (w', Raise e) ->
  explained logger (fs w') e.
Proof.
  rewrite sync_shape.
  destruct (sync_open clock verbose src dst logger w) as [w1 [[]|e1]] eqn:E1.
  2:{ intros Hrun. simplify_eq. unfold sync_open in E1. rewrite bind_run in E1.
      destruct (when verbose (print _) w) as [w0 [[]|e0]] eqn:E0.
      - eapply log_raise; eauto.
      - destruct verbose; discriminate. }
  apply sync_open_ok in E1.
  destruct (fs w1 !! src) as [ds|]; [|intros Hrun; simplify_eq; exact E1].
  destruct (fs w1 !! dst) as [dd|]; [|intros Hrun; simplify_eq; exact E1].
  unfold sync_rest. rewrite bind_run.
  destruct (for_each (ls ds) _ _) as [w4 [[]|e4]] eqn:E4.
  2:{ intros Hrun. simplify_eq. apply for_each_raise in E4 as (x & w0 & _ & Hx).
      eapply sync_file_raise; eauto. }
  rewrite bind_run.
  destruct (for_each (ls dd) _ _) as [w5 [[]|e5]] eqn:E5.
  2:{ intros Hrun. simplify_eq. apply for_each_raise in E5 as (x & w0 & _ & Hx).
      eapply remove_file_raise; eauto. }
  rewrite bind_run.
  destruct (when verbose (print _) w5) as [w6 [[]|e6]] eqn:E6.
  - apply log_raise.
  - destruct verbose; discriminate.
Qed.

End Failure.

Lemma copy_events_announced verbose src dst logger file evs :
  copy_events verbose src dst logger file evs ->
  announced logger evs /\ Forall (fun e => is_listdir e = false) evs.
Proof.
  unfold copy_events, say, announced.
  destruct verbose; intros [->|[b ->]]; simpl; repeat split; repeat constructor.
Qed.


(* ===================================================================== *)
(** ** The log file                                                       *)
(* ===================================================================== *)



#[global] Instance logged_closed (Q : string -> Prop) :
  Closed (fun evs => Forall Q (logged evs)).
Proof.
  split; [constructor|]. intros a b Ha Hb. rewrite logged_app. apply Forall_app; auto.
Qed.

Section LogFile.

Context (clock : nat -> struct_time) (ls : directory -> list string).



End LogFile.

(* ===================================================================== *)
(** ** What a pass preserves                                              *)
(* ===================================================================== *)

#[global] Instance evolves_refl T : Reflexive (evolves T).
Proof. intros w. split; [reflexivity|]. split; eauto. Qed.

#[global] Instance evolves_trans T : Transitive (evolves T).
Proof.
  intros w1 w2 w3 (D12 & S12 & R12) (D23 & S23 & R23). split; [|split].
  - etransitivity; eassumption.
  - auto.
  - intros q f Hf. destruct (R12 q f Hf) as [[f' Hf']|HT]; [|right; exact HT].
    eapply R23, Hf'.
Qed.

(** A call that leaves the file system alone. *)
Lemma evolves_same_fs T w w' : fs w' = fs w -> evolves T w w'.
Proof.
  intros E. split; [|split].
  - intros d. rewrite E. reflexivity.
  - intros q. rewrite E. auto.
  - intros q f Hf. left. exists f. rewrite E. exact Hf.
Qed.

Section Evolution.

Context (clock : nat -> struct_time) (ls : directory -> list string).

Lemma print_evolves T line : preserves (evolves T) (print line).
Proof. intros w. apply evolves_same_fs. reflexivity. Qed.

Lemma hash_file_evolves T p : preserves (evolves T) (hash_file p).
Proof.
  intros w. apply evolves_same_fs. unfold hash_file. destruct (fs_read _ _); reflexivity.
Qed.

Lemma os_listdir_evolves T dir : preserves (evolves T) (os_listdir ls dir).
Proof.
  intros w. apply evolves_same_fs. unfold os_listdir. destruct (fs w !! dir); reflexivity.
Qed.

Lemma log_evolves T logger msg : preserves (evolves T) (log clock logger msg).
Proof.
  intros w. unfold log.
  destruct (fs_append _ _ _ _) as [m|] eqn:E; simpl; [|apply evolves_same_fs; reflexivity].
  pose proof (fs_append_self _ _ _ _ _ E) as (f & Hf & _).
  split; [|split]; simpl.
  - intros d. eapply fs_append_dirs; eauto.
  - intros q Hq. destruct (decide (q = log_file_path logger)) as [->|Hne]; [congruence|].
    erewrite <- fs_append_other; eauto.
  - intros q g Hg. left.
    destruct (decide (q = log_file_path logger)) as [->|Hne]; [eauto|].
    exists g. erewrite fs_append_other; eauto.
Qed.

Lemma shutil_copy_evolves T from dstdir : preserves (evolves T) (shutil_copy clock from dstdir).
Proof.
  intros w. unfold shutil_copy.
  destruct (fs_copy _ _ _ _) as [m|] eqn:E; simpl; [|apply evolves_same_fs; reflexivity].
  pose proof (fs_copy_self _ _ _ _ _ E) as (f & _ & _ & Hf & _).
  split; [|split]; simpl.
  - intros d. eapply fs_copy_dirs; eauto.
  - intros q Hq. destruct (decide (q = Path dstdir (basename from))) as [->|Hne]; [congruence|].
    erewrite <- fs_copy_other; eauto.
  - intros q g Hg. left.
    destruct (decide (q = Path dstdir (basename from))) as [->|Hne]; [eauto|].
    exists g. erewrite fs_copy_other; eauto.
Qed.

Lemma os_remove_evolves (T : path -> Prop) p : T p -> preserves (evolves T) (os_remove p).
Proof.
  intros HT w. unfold os_remove.
  destruct (fs_remove _ _) as [m|] eqn:E; simpl; [|apply evolves_same_fs; reflexivity].
  pose proof (fs_remove_self _ _ _ E) as [_ Hnone].
  split; [|split]; simpl.
  - intros d. eapply fs_remove_dirs; eauto.
  - intros q Hq. destruct (decide (q = p)) as [->|Hne]; [congruence|].
    erewrite <- fs_remove_other; eauto.
  - intros q g Hg. destruct (decide (q = p)) as [->|Hne]; [right; exact HT|].
    left. exists g. erewrite fs_remove_other; eauto.
Qed.

Lemma sync_file_evolves T verbose src dst logger dst_files file :
  preserves (evolves T) (sync_file clock verbose src dst logger dst_files file).
Proof.
  assert (Hcopy : preserves (evolves T)
    (when verbose (print (msg_copy file src dst)) ;;
     log_copy clock logger file ;;
     shutil_copy clock (os_path_join src file) dst)).
  { apply preserves_bind; [typeclasses eauto.. | |intros _].
    - apply preserves_when; [typeclasses eauto.. |]. apply print_evolves.
    - apply preserves_bind; [typeclasses eauto.. | |intros _].
      + apply log_evolves.
      + apply shutil_copy_evolves. }
  unfold sync_file. case_bool_decide; [exact Hcopy|].
  apply preserves_bind; [typeclasses eauto.. | apply hash_file_evolves |intros h1].
  apply preserves_bind; [typeclasses eauto.. | apply hash_file_evolves |intros h2].
  case_bool_decide; [exact Hcopy|]. apply preserves_ret. typeclasses eauto.
Qed.

Lemma remove_file_evolves (T : path -> Prop) verbose dst logger src_files file :
  (file ∉ src_files -> T (Path dst file)) ->
  preserves (evolves T) (remove_file clock verbose dst logger src_files file).
Proof.
  intros HT. unfold remove_file. case_bool_decide; [|apply preserves_ret; typeclasses eauto].
  apply preserves_bind; [typeclasses eauto.. | |intros _].
  - apply preserves_when; [typeclasses eauto.. |]. apply print_evolves.
  - apply preserves_bind; [typeclasses eauto.. | |intros _].
    + apply log_evolves.
    + apply os_remove_evolves. auto.
Qed.

Lemma sync_open_evolves T verbose src dst logger :
  preserves (evolves T) (sync_open clock verbose src dst logger).
Proof.
  apply preserves_bind; [typeclasses eauto.. | |intros _].
  - apply preserves_when; [typeclasses eauto.. |]. apply print_evolves.
  - apply log_evolves.
Qed.

Lemma sync_open_touched verbose src dst logger :
  preserves (touched_only (fun q => q = log_file_path logger))
    (sync_open clock verbose src dst logger).
Proof.
  apply preserves_bind; [typeclasses eauto.. | |intros _].
  - apply preserves_when; [typeclasses eauto.. |]. apply print_touched.
  - apply log_touched. reflexivity.
Qed.

(** The loops and the end of the pass, for listings that agree when the two
    directories are the same. *)
Lemma sync_rest_touched verbose src dst logger src_files dst_files :
  (src = dst -> src_files = dst_files) ->
  preserves
    (touched_only (fun q => q = log_file_path logger
                            \/ (exists file, q = Path dst file /\ src <> dst)))
    (sync_rest clock verbose src dst logger src_files dst_files).
Proof.
  intros Hsame. unfold sync_rest.
  apply preserves_bind; [typeclasses eauto.. | |intros _].
  { apply preserves_for_each; [typeclasses eauto.. |]. intros x _.
    eapply preserves_mono; [|apply sync_file_touched].
    intros w w'. apply touched_only_mono. intros q [->|[-> Hne]]; eauto. }
  apply preserves_bind; [typeclasses eauto.. | |intros _].
  { apply preserves_for_each; [typeclasses eauto.. |]. intros x Hx.
    eapply preserves_mono; [|apply remove_file_touched].
    intros w w'. apply touched_only_mono. intros q [->|[-> Hnot]]; [auto|].
    right. exists x. split; [reflexivity|]. intros E. apply Hnot.
    rewrite (Hsame E). exact Hx. }
  apply preserves_bind; [typeclasses eauto.. | |intros _].
  - apply preserves_when; [typeclasses eauto.. |]. apply print_touched.
  - apply log_touched. left. reflexivity.
Qed.

Lemma sync_rest_evolves verbose src dst logger src_files dst_files :
  preserves (evolves (fun q => exists file, q = Path dst file /\ file ∉ src_files))
    (sync_rest clock verbose src dst logger src_files dst_files).
Proof.
  unfold sync_rest.
  apply preserves_bind; [typeclasses eauto.. | |intros _].
  { apply preserves_for_each; [typeclasses eauto.. |]. intros x _. apply sync_file_evolves. }
  apply preserves_bind; [typeclasses eauto.. | |intros _].
  { apply preserves_for_each; [typeclasses eauto.. |]. intros x _.
    apply remove_file_evolves. eauto. }
  apply preserves_bind; [typeclasses eauto.. | |intros _].
  - apply preserves_when; [typeclasses eauto.. |]. apply print_evolves.
  - apply log_evolves.
Qed.

(** A pass touches the log file and, unless the two directories are the
    same, entries of the destination. *)
Lemma sync_touched verbose src dst logger :
  preserves
    (touched_only (fun q => q = log_file_path logger
                            \/ (exists file, q = Path dst file /\ src <> dst)))
    (sync clock ls verbose src dst logger).
Proof.
  intros w. rewrite sync_shape.
  pose proof (sync_open_touched verbose src dst logger w) as H1.
  destruct (sync_open clock verbose src dst logger w) as [w1 [[]|e1]]; simpl in *.
  2:{ eapply touched_only_mono; [|exact H1]. auto. }
  assert (H1' : touched_only (fun q => q = log_file_path logger
                 \/ (exists file, q = Path dst file /\ src <> dst)) w w1).
  { eapply touched_only_mono; [|exact H1]. auto. }
  destruct (fs w1 !! src) as [ds|] eqn:Es; [|exact H1'].
  destruct (fs w1 !! dst) as [dd|] eqn:Ed; [|exact H1'].
  etransitivity; [exact H1'|].
  transitivity (listed src dst w1); [intros q Hq; simpl in Hq; congruence|].
  apply sync_rest_touched. intros ->. congruence.
Qed.

Lemma sync_evolves verbose src dst logger :
  preserves (evolves (fun q => dirname q = dst)) (sync clock ls verbose src dst logger).
Proof.
  intros w. rewrite sync_shape.
  pose proof (sync_open_evolves (fun q => dirname q = dst) verbose src dst logger w) as H1.
  destruct (sync_open clock verbose src dst logger w) as [w1 [[]|e1]]; simpl in *; [|exact H1].
  destruct (fs w1 !! src) as [ds|] eqn:Es.
  2:{ etransitivity; [exact H1|]. apply evolves_same_fs. reflexivity. }
  destruct (fs w1 !! dst) as [dd|] eqn:Ed.
  2:{ etransitivity; [exact H1|]. apply evolves_same_fs. reflexivity. }
  etransitivity; [exact H1|].
  transitivity (listed src dst w1); [apply evolves_same_fs; reflexivity|].
  pose proof (sync_rest_evolves verbose src dst logger (ls ds) (ls dd) (listed src dst w1))
    as (D & Sb & R).
  split; [exact D|]. split; [exact Sb|].
  intros q f Hf. destruct (R q f Hf) as [?|(file & -> & _)]; auto.
Qed.

End Evolution.

(* ===================================================================== *)
(** ** The verbose flag                                                   *)
(* ===================================================================== *)

Lemma calls_app (a b : list event) : calls (a ++ b) = (calls a ++ calls b)%list.
Proof. apply List.filter_app. Qed.

Lemma erase_eq w1 w2 :
  erase w1 = erase w2 <->
  fs w1 = fs w2 /\ ticks w1 = ticks w2 /\ calls (trace w1) = calls (trace w2).
Proof.
  unfold erase. split.
  - intros H. injection H. auto.
  - intros (-> & -> & ->). reflexivity.
Qed.

Lemma oblivious_ret {A} (a : A) : oblivious (mret a) (mret a).
Proof. intros w1 w2 H. simpl. auto. Qed.

Lemma oblivious_bind {A B} (m1 m2 : M A) (f1 f2 : A -> M B) :
  oblivious m1 m2 -> (forall a, oblivious (f1 a) (f2 a)) ->
  oblivious (m1 ≫= f1) (m2 ≫= f2).
Proof.
  intros Hm Hf w1 w2 H. rewrite !bind_run. specialize (Hm w1 w2 H).
  destruct (m1 w1) as [w1' [a1|e1]], (m2 w2) as [w2' [a2|e2]];
    simpl in Hm; destruct Hm as [He Hr]; try discriminate.
  - injection Hr as ->. apply Hf, He.
  - injection Hr as ->. split; [exact He | reflexivity].
Qed.

Lemma oblivious_for_each {A} (l : list A) (b1 b2 : A -> M unit) :
  (forall x, oblivious (b1 x) (b2 x)) -> oblivious (for_each l b1) (for_each l b2).
Proof.
  intros Hb. induction l as [|x l IH]; simpl.
  - apply oblivious_ret.
  - apply oblivious_bind; [apply Hb | intros _; exact IH].
Qed.

(** Printing, or not, makes no difference once the standard output is
    ignored. *)
Lemma oblivious_print (v1 v2 : bool) (l1 l2 : string) :
  oblivious (when v1 (print l1)) (when v2 (print l2)).
Proof.
  intros w1 w2 H. apply erase_eq in H as (Hf & Ht & Hc).
  destruct v1, v2; simpl; (split; [|reflexivity]); apply erase_eq; simpl;
    rewrite ?calls_app; simpl; rewrite ?app_nil_r; auto.
Qed.

Section Verbose.

Context (clock : nat -> struct_time) (ls : directory -> list string).

Lemma log_oblivious logger msg : oblivious (log clock logger msg) (log clock logger msg).
Proof.
  intros w1 w2 H. apply erase_eq in H as (Hf & Ht & Hc). unfold log, record.
  rewrite Hf, Ht. destruct (fs_append _ _ _ _); simpl; (split; [|reflexivity]);
    apply erase_eq; simpl; rewrite !calls_app, Hc; auto.
Qed.

Lemma hash_file_oblivious p : oblivious (hash_file p) (hash_file p).
Proof.
  intros w1 w2 H. apply erase_eq in H as (Hf & Ht & Hc). unfold hash_file, record.
  rewrite Hf. destruct (fs_read _ _); simpl; (split; [|reflexivity]);
    apply erase_eq; simpl; rewrite !calls_app, Hc; auto.
Qed.

Lemma os_listdir_oblivious dir : oblivious (os_listdir ls dir) (os_listdir ls dir).
Proof.
  intros w1 w2 H. apply erase_eq in H as (Hf & Ht & Hc). unfold os_listdir, record.
  rewrite Hf. destruct (fs w2 !! dir); simpl; (split; [|reflexivity]);
    apply erase_eq; simpl; rewrite !calls_app, Hc; auto.
Qed.

Lemma shutil_copy_oblivious from dstdir :
  oblivious (shutil_copy clock from dstdir) (shutil_copy clock from dstdir).
Proof.
  intros w1 w2 H. apply erase_eq in H as (Hf & Ht & Hc). unfold shutil_copy, record.
  rewrite Hf, Ht. destruct (fs_copy _ _ _ _); simpl; (split; [|reflexivity]);
    apply erase_eq; simpl; rewrite !calls_app, Hc; auto.
Qed.

Lemma os_remove_oblivious p : oblivious (os_remove p) (os_remove p).
Proof.
  intros w1 w2 H. apply erase_eq in H as (Hf & Ht & Hc). unfold os_remove, record.
  rewrite Hf. destruct (fs_remove _ _); simpl; (split; [|reflexivity]);
    apply erase_eq; simpl; rewrite !calls_app, Hc; auto.
Qed.

Lemma sync_file_oblivious v1 v2 src dst logger dst_files file :
  oblivious (sync_file clock v1 src dst logger dst_files file)
            (sync_file clock v2 src dst logger dst_files file).
Proof.
  assert (Hcopy : oblivious
    (when v1 (print (msg_copy file src dst)) ;;
     log_copy clock logger file ;; shutil_copy clock (os_path_join src file) dst)
    (when v2 (print (msg_copy file src dst)) ;;
     log_copy clock logger file ;; shutil_copy clock (os_path_join src file) dst)).
  { apply oblivious_bind; [apply oblivious_print|intros _].
    apply oblivious_bind; [apply log_oblivious|intros _]. apply shutil_copy_oblivious. }
  unfold sync_file. case_bool_decide; [exact Hcopy|].
  apply oblivious_bind; [apply hash_file_oblivious|intros h1].
  apply oblivious_bind; [apply hash_file_oblivious|intros h2].
  case_bool_decide; [exact Hcopy | apply oblivious_ret].
Qed.

Lemma remove_file_oblivious v1 v2 dst logger src_files file :
  oblivious (remove_file clock v1 dst logger src_files file)
            (remove_file clock v2 dst logger src_files file).
Proof.
  unfold remove_file. case_bool_decide; [|apply oblivious_ret].
  apply oblivious_bind; [apply oblivious_print|intros _].
  apply oblivious_bind; [apply log_oblivious|intros _]. apply os_remove_oblivious.
Qed.

Lemma sync_oblivious v1 v2 src dst logger :
  oblivious (sync clock ls v1 src dst logger) (sync clock ls v2 src dst logger).
Proof.
  unfold sync.
  apply oblivious_bind; [apply oblivious_print|intros _].
  apply oblivious_bind; [apply log_oblivious|intros _].
  apply oblivious_bind; [apply os_listdir_oblivious|intros src_files].
  apply oblivious_bind; [apply os_listdir_oblivious|intros dst_files].
  apply oblivious_bind; [apply oblivious_for_each; intros x; apply sync_file_oblivious|intros _].
  apply oblivious_bind; [apply oblivious_for_each; intros x; apply remove_file_oblivious|intros _].
  apply oblivious_bind; [apply oblivious_print|intros _].
  apply log_oblivious.
Qed.

End Verbose.

(* ===================================================================== *)
(** ** One iteration of each loop                                         *)
(* ===================================================================== *)


Section Iteration.

Context (clock : nat -> struct_time) (ls : directory -> list string).





End Iteration.

Section IterationOutcome.

Context (clock : nat -> struct_time) (ls : directory -> list string).




Lemma remove_file_kept verbose dst logger src_files file w :
  file ∈ src_files ->
  remove_file clock verbose dst logger src_files file w = (w, Ok tt).
Proof.
  intros Hin. unfold remove_file.
  rewrite bool_decide_false by (intros Hn; exact (Hn Hin)). reflexivity.
Qed.



End IterationOutcome.

(* ===================================================================== *)
(** ** The two loops                                                      *)
(* ===================================================================== *)


Lemma touched_only_untouched (T : path -> Prop) w w' q :
  touched_only T w w' -> ~ T q -> entry_at (fs w') q = entry_at (fs w) q.
Proof.
  intros H Hq. destruct (decide (entry_at (fs w') q = entry_at (fs w) q)) as [E|E]; [exact E|].
  exfalso. apply Hq, H, E.
Qed.

#[global] Instance anything_closed : Closed (fun _ => True).
Proof. split; auto. Qed.

Section Loops.

Context (clock : nat -> struct_time) (ls : directory -> list string).







End Loops.

(* ===================================================================== *)
(** ** A pass that completes                                              *)
(* ===================================================================== *)

Section Completed.

Context (clock : nat -> struct_time) (ls : directory -> list string).




End Completed.

(* ===================================================================== *)
(** ** A pass over regular files completes                                *)
(* ===================================================================== *)


Section Success.

Context (clock : nat -> struct_time) (ls : directory -> list string).







End Success.

Section Mirror.

Context (clock : nat -> struct_time) (ls : directory -> list string).


End Mirror.

(* ===================================================================== *)
(** ** A second pass                                                      *)
(* ===================================================================== *)



Section Again.

Context (clock : nat -> struct_time) (ls : directory -> list string).





End Again.

(* ===================================================================== *)
(** ** The properties of a pass                                           *)
(* ===================================================================== *)

Section Claims.

Context (clock : nat -> struct_time) (ls : directory -> list string).




(** C4 (operation order).  The calls of a pass split in two parts: no
    [os.remove] is made in the first part, and no [shutil.copy] and no read
    of a file to hash is made in the second. *)
Theorem copies_before_removes verbose src dst logger w :
  exists before after : list event,
    trace (sync clock ls verbose src dst logger w).1 = (trace w ++ before ++ after)%list
    /\ Forall (fun e => is_remove e = false) before
    /\ Forall (fun e => is_copy e = false /\ is_read e = false) after.
Proof.
  destruct (sync_trace clock ls
              (Forall (fun e => is_remove e = false))
              (Forall (fun e => is_copy e = false /\ is_read e = false))
              verbose src dst logger) with (w := w)
    as (e0 & e1 & e2 & e3 & Ht & _ & H0 & H1 & H2 & H3 & _).
  - intros file evs H. unfold sync_file_events, copy_events, say in H.
    destruct verbose; destruct H as [[->|[b ->]]|[->|[->|(tl & [->|[b ->]] & ->)]]];
      repeat constructor.
  - intros file evs H. unfold remove_file_events, say in H.
    destruct verbose; destruct H as [->|[->| ->]]; repeat constructor.
  - exists (e0 ++ e1)%list, (e2 ++ e3)%list. simpl in Ht. rewrite Ht, <- !app_assoc.
    split; [reflexivity|]. split; apply Forall_app; split; auto.
    + unfold start_events, say in H0.
      destruct verbose; destruct H0 as [->|[->| ->]]; repeat constructor.
    + unfold end_events, say in H3.
      destruct verbose; destruct H3 as [->| ->]; repeat constructor.
Qed.

(** C5 (missing directory).  When the start of the pass has been logged and
    the source or the destination is then not a directory that can be
    listed, [sync] raises the error of [os.listdir] for that directory: the
    pass has made no call but the start line and the listings, and the file
    system is as it was when the listing was attempted. *)
Theorem missing_directory_aborts verbose src dst logger w w1 :
  sync_open clock verbose src dst logger w = (w1, Ok tt) ->
  fs w1 !! src = None \/ fs w1 !! dst = None ->
  exists w' dir listings,
    sync clock ls verbose src dst logger w = (w', Raise (DirectoryAccessError dir))
    /\ (dir = src \/ dir = dst) /\ fs w1 !! dir = None
    /\ fs w' = fs w1
    /\ trace w' = (trace w ++ say verbose (msg_sync_start src dst)
                   ++ [Log (msg_sync_start (logger_src logger) (logger_dst logger))]
                   ++ listings)%list
    /\ Forall (fun e => is_listdir e = true) listings.
Proof.
  intros Hopen Hmiss. rewrite sync_shape, Hopen.
  pose proof (sync_open_emits clock verbose src dst logger w) as (e0 & Htr & _ & ->).
  rewrite Hopen in Htr. simpl in Htr.
  destruct (fs w1 !! src) as [ds|] eqn:Es.
  - destruct Hmiss as [?|Hd]; [discriminate|]. rewrite Hd.
    exists (listed src dst w1), dst, [Listdir src; Listdir dst].
    simpl. rewrite Htr, <- !app_assoc. repeat split; auto.
  - exists (record (Listdir src) w1), src, [Listdir src].
    simpl. rewrite Htr, <- !app_assoc. repeat split; auto.
Qed.

(** C6 (verbose flag).  A pass with the flag set and a pass without it, from
    the same world, leave the same file system and the same log file, end
    the same way and make the same calls in the same order, [print] apart.
    Without the flag nothing is printed; with it the printed lines are the
    messages passed to the logger, when the logger was made for the same two
    directories. *)
Theorem verbose_noninterference src dst logger w :
  fs (sync clock ls true src dst logger w).1 = fs (sync clock ls false src dst logger w).1
  /\ (sync clock ls true src dst logger w).2 = (sync clock ls false src dst logger w).2
  /\ calls (trace (sync clock ls true src dst logger w).1)
     = calls (trace (sync clock ls false src dst logger w).1)
  /\ content (fs (sync clock ls true src dst logger w).1) (log_file_path logger)
     = content (fs (sync clock ls false src dst logger w).1) (log_file_path logger)
  /\ stdout (sync clock ls false src dst logger w).1 = stdout w
  /\ (exists evs : list event,
        trace (sync clock ls true src dst logger w).1 = (trace w ++ evs)%list
        /\ stdout (sync clock ls true src dst logger w).1 = (stdout w ++ printed evs)%list
        /\ (logger_src logger = src -> logger_dst logger = dst ->
            printed evs = logged evs)).
Proof.
  destruct (sync_oblivious clock ls true false src dst logger w w eq_refl) as [He Hr].
  apply erase_eq in He as (Hf & _ & Hc).
  split; [exact Hf|]. split; [exact Hr|]. split; [exact Hc|].
  split; [unfold content; rewrite Hf; reflexivity|]. split.
  - destruct (sync_trace clock ls (fun evs => printed evs = []) (fun evs => printed evs = [])
                false src dst logger) with (w := w)
      as (e0 & e1 & e2 & e3 & _ & Hs & H0 & H1 & H2 & H3 & _).
    + intros file evs H. unfold sync_file_events, copy_events, say in H.
      destruct H as [[->|[b ->]]|[->|[->|(tl & [->|[b ->]] & ->)]]]; reflexivity.
    + intros file evs H. unfold remove_file_events, say in H.
      destruct H as [->|[->| ->]]; reflexivity.
    + simpl in Hs. rewrite Hs, !printed_app, H1, H2.
      unfold start_events, end_events, say in *.
      destruct H0 as [->|[->| ->]], H3 as [->| ->]; simpl; apply app_nil_r.
  - destruct (sync_trace clock ls
                (fun evs => logger_src logger = src -> logger_dst logger = dst ->
                            printed evs = logged evs)
                (fun evs => logger_src logger = src -> logger_dst logger = dst ->
                            printed evs = logged evs)
                true src dst logger) with (w := w)
      as (e0 & e1 & e2 & e3 & Ht & Hs & H0 & H1 & H2 & H3 & _).
    + intros file evs H Es Ed. subst src dst.
      unfold sync_file_events, copy_events, say in H.
      destruct H as [[->|[b ->]]|[->|[->|(tl & [->|[b ->]] & ->)]]]; reflexivity.
    + intros file evs H Es Ed. subst src dst. unfold remove_file_events, say in H.
      destruct H as [->|[->| ->]]; reflexivity.
    + exists (e0 ++ e1 ++ e2 ++ e3)%list. split; [exact Ht|]. split; [exact Hs|].
      intros Es Ed. rewrite !printed_app, !logged_app, (H1 Es Ed), (H2 Es Ed).
      unfold start_events, end_events, say in *. subst src dst.
      destruct H0 as [->|[->| ->]], H3 as [->| ->]; reflexivity.
Qed.




(** C10 (log before action).  The calls of a pass are the start line, the
    listings, and then calls among which every [shutil.copy] and every
    [os.remove] comes immediately after the [Logger.log] call with the
    message for the same file.  When a pass stops on a failed copy, removal
    or listing, the last line of the log file is the line of that copy, of
    that removal, or the start line. *)
Theorem log_before_action verbose src dst logger w :
  (exists listings rest : list event,
     trace (sync clock ls verbose src dst logger w).1
     = (trace w ++ say verbose (msg_sync_start src dst)
        ++ [Log (msg_sync_start (logger_src logger) (logger_dst logger))]
        ++ listings ++ rest)%list
     /\ Forall (fun e => is_listdir e = true) listings
     /\ Forall (fun e => is_listdir e = false) rest
     /\ announced logger rest)
  /\ (forall e, (sync clock ls verbose src dst logger w).2 = Raise e ->
        explained logger (fs (sync clock ls verbose src dst logger w).1) e).
Proof.
  split.
  - destruct (sync_trace clock ls
                (fun evs => announced logger evs /\ Forall (fun e => is_listdir e = false) evs)
                (fun evs => announced logger evs /\ Forall (fun e => is_listdir e = false) evs)
                verbose src dst logger) with (w := w)
      as (e0 & e1 & e2 & e3 & Ht & _ & H0 & [A1 L1] & [A2 L2] & H3 & _).
    + intros file evs H. unfold sync_file_events in H.
      destruct H as [H|[->|[->|(tl & H & ->)]]].
      * eapply copy_events_announced, H.
      * split; repeat constructor.
      * split; repeat constructor.
      * apply copy_events_announced in H as [Ha Hl]. split.
        -- apply (closed_app (P := announced logger)); [|exact Ha].
           unfold announced. simpl. auto.
        -- repeat constructor. exact Hl.
    + intros file evs H. unfold remove_file_events, say, announced in H |- *.
      destruct verbose; destruct H as [->|[->| ->]]; simpl; repeat split; repeat constructor.
    + assert (He3 : announced logger e3 /\ Forall (fun e => is_listdir e = false) e3).
      { unfold end_events, say, announced in *.
        destruct verbose; destruct H3 as [->| ->]; simpl; repeat split; repeat constructor. }
      destruct He3 as [A3 L3]. simpl in Ht.
      assert (Hrest : announced logger (e1 ++ e2 ++ e3)
                      /\ Forall (fun e => is_listdir e = false) (e1 ++ e2 ++ e3)).
      { split.
        - repeat apply (closed_app (P := announced logger)); assumption.
        - repeat (apply Forall_app; split); assumption. }
      destruct Hrest as [Ar Lr]. unfold start_events in H0.
      destruct H0 as [->|[->| ->]].
      * exists [], (e1 ++ e2 ++ e3)%list. rewrite Ht, <- !app_assoc. simpl.
        repeat split; auto.
      * exists [Listdir src], (e1 ++ e2 ++ e3)%list. rewrite Ht, <- !app_assoc. simpl.
        repeat split; auto.
      * exists [Listdir src; Listdir dst], (e1 ++ e2 ++ e3)%list.
        rewrite Ht, <- !app_assoc. simpl. repeat split; auto.
  - intros e He. destruct (sync clock ls verbose src dst logger w) as [w' r] eqn:E.
    simpl in *. subst r. eapply sync_explained. exact E.
Qed.

End Claims.

(* ===================================================================== *)
(** ** The properties on concrete worlds                                  *)
(* ===================================================================== *)

Lemma listdir_sorted_ok : listing_ok listdir_sorted.
Proof.
  intros d. unfold listdir_sorted. split.
  - apply NoDup_fst_map_to_list.
  - intros n. rewrite list_elem_of_fmap. split.
    + intros ([n' e] & -> & H). apply elem_of_map_to_list in H. simpl. eauto.
    + intros [e H]. exists (n, e). split; [reflexivity|]. apply elem_of_map_to_list. exact H.
Qed.



(** The scenario with a file to create, a file to update and a file to
    delete. *)
Example scenario_calls :
  sync example_clock listdir_sorted false "S" "D" example_logger example_world
  = ((sync example_clock listdir_sorted false "S" "D" example_logger example_world).1, Ok tt)
  /\ calls (trace (sync example_clock listdir_sorted false "S" "D" example_logger
                     example_world).1)
     = [ Log "Syncing files from S to D"; Listdir "S"; Listdir "D";
         Log "Copying a.txt from S to D"; Copy (Path "S" "a.txt") "D" false;
         ReadFile (Path "S" "b.txt"); ReadFile (Path "D" "b.txt");
         Log "Copying b.txt from S to D"; Copy (Path "S" "b.txt") "D" true;
         Log "Removing c.txt from D"; Remove (Path "D" "c.txt");
         Log "Sync completed from S to D" ]
  /\ content (fs (sync example_clock listdir_sorted false "S" "D" example_logger
                    example_world).1) (Path "D" "a.txt") = "hello"
  /\ content (fs (sync example_clock listdir_sorted false "S" "D" example_logger
                    example_world).1) (Path "D" "b.txt") = "world"
  /\ entry_at (fs (sync example_clock listdir_sorted false "S" "D" example_logger
                     example_world).1) (Path "D" "c.txt") = None.
Proof. repeat (split; [vm_compute; reflexivity|]). vm_compute. reflexivity. Qed.

(** *** C1: convergence *)



(** *** C2: idempotence *)



(** *** C3: the update rule *)


(** *** C5: a missing directory *)

Lemma missing_directory_witness :
  exists w' dir,
    sync example_clock listdir_sorted false "S" "D" example_logger no_destination
    = (w', Raise (DirectoryAccessError dir))
    /\ dir = "D".
Proof.
  destruct (missing_directory_aborts example_clock listdir_sorted false "S" "D"
              example_logger no_destination
              (sync_open example_clock false "S" "D" example_logger no_destination).1)
    as (w' & dir & listings & H & Hdir & Hnone & _).
  - vm_compute. reflexivity.
  - right. vm_compute. reflexivity.
  - exists w', dir. split; [exact H|]. destruct Hdir as [->| ->]; [|reflexivity].
    vm_compute in Hnone. discriminate.
Defined.

(** *** C7: the log of a pass that fails *)


(** *** C8: creation *)



(** *** C9: the source directory *)


(* ===================================================================== *)
(** ** Subdirectories                                                     *)
(* ===================================================================== *)

#[global] Instance keeps_subdirs_refl : Reflexive keeps_subdirs.
Proof. intros w q H. exact H. Qed.

#[global] Instance keeps_subdirs_trans : Transitive keeps_subdirs.
Proof. intros w1 w2 w3 H12 H23 q H. apply H23, H12, H. Qed.

Lemma keeps_subdirs_same_fs w w' : fs w' = fs w -> keeps_subdirs w w'.
Proof. intros E q. rewrite E. auto. Qed.


Section Subdirs.

Context (clock : nat -> struct_time) (ls : directory -> list string).

Lemma print_keeps_subdirs line : preserves keeps_subdirs (print line).
Proof. intros w. apply keeps_subdirs_same_fs. reflexivity. Qed.

Lemma hash_file_keeps_subdirs p : preserves keeps_subdirs (hash_file p).
Proof.
  intros w. apply keeps_subdirs_same_fs. unfold hash_file. destruct (fs_read _ _); reflexivity.
Qed.

Lemma os_listdir_keeps_subdirs dir : preserves keeps_subdirs (os_listdir ls dir).
Proof.
  intros w. apply keeps_subdirs_same_fs. unfold os_listdir. destruct (fs w !! dir); reflexivity.
Qed.

Lemma log_keeps_subdirs logger msg : preserves keeps_subdirs (log clock logger msg).
Proof.
  intros w. unfold log.
  destruct (fs_append _ _ _ _) as [m|] eqn:E; simpl;
    [|apply keeps_subdirs_same_fs; reflexivity].
  intros q Hq. simpl.
  destruct (decide (q = log_file_path logger)) as [->|Hne].
  - apply fs_append_self in E as (f & _ & _ & [(g & Hg & _)|(Hg & _)]); congruence.
  - erewrite fs_append_other; eauto.
Qed.

Lemma shutil_copy_keeps_subdirs from dstdir :
  preserves keeps_subdirs (shutil_copy clock from dstdir).
Proof.
  intros w. unfold shutil_copy.
  destruct (fs_copy _ _ _ _) as [m|] eqn:E; simpl;
    [|apply keeps_subdirs_same_fs; reflexivity].
  intros q Hq. simpl.
  destruct (decide (q = Path dstdir (basename from))) as [->|Hne].
  - apply fs_copy_inv in E as (f & d & _ & Hd & _ & Hsub & _).
    rewrite (entry_at_lookup _ _ _ _ Hd) in Hq. contradiction.
  - erewrite fs_copy_other; eauto.
Qed.

Lemma os_remove_keeps_subdirs p : preserves keeps_subdirs (os_remove p).
Proof.
  intros w. unfold os_remove.
  destruct (fs_remove _ _) as [m|] eqn:E; simpl;
    [|apply keeps_subdirs_same_fs; reflexivity].
  intros q Hq. simpl.
  destruct (decide (q = p)) as [->|Hne].
  - apply fs_remove_self in E as [[g Hg] _]. congruence.
  - erewrite fs_remove_other; eauto.
Qed.

Lemma sync_file_keeps_subdirs verbose src dst logger dst_files file :
  preserves keeps_subdirs (sync_file clock verbose src dst logger dst_files file).
Proof.
  assert (Hcopy : preserves keeps_subdirs
    (when verbose (print (msg_copy file src dst)) ;;
     log_copy clock logger file ;;
     shutil_copy clock (os_path_join src file) dst)).
  { apply preserves_bind; [typeclasses eauto.. | |intros _].
    - apply preserves_when; [typeclasses eauto.. |]. apply print_keeps_subdirs.
    - apply preserves_bind; [typeclasses eauto.. | |intros _].
      + apply log_keeps_subdirs.
      + apply shutil_copy_keeps_subdirs. }
  unfold sync_file. case_bool_decide; [exact Hcopy|].
  apply preserves_bind; [typeclasses eauto.. | apply hash_file_keeps_subdirs |intros h1].
  apply preserves_bind; [typeclasses eauto.. | apply hash_file_keeps_subdirs |intros h2].
  case_bool_decide; [exact Hcopy|]. apply preserves_ret. typeclasses eauto.
Qed.

Lemma remove_file_keeps_subdirs verbose dst logger src_files file :
  preserves keeps_subdirs (remove_file clock verbose dst logger src_files file).
Proof.
  unfold remove_file. case_bool_decide; [|apply preserves_ret; typeclasses eauto].
  apply preserves_bind; [typeclasses eauto.. | |intros _].
  - apply preserves_when; [typeclasses eauto.. |]. apply print_keeps_subdirs.
  - apply preserves_bind; [typeclasses eauto.. | |intros _].
    + apply log_keeps_subdirs.
    + apply os_remove_keeps_subdirs.
Qed.

Lemma sync_keeps_subdirs verbose src dst logger :
  preserves keeps_subdirs (sync clock ls verbose src dst logger).
Proof.
  unfold sync.
  apply preserves_bind; [typeclasses eauto.. | |intros _].
  { apply preserves_when; [typeclasses eauto.. |]. apply print_keeps_subdirs. }
  apply preserves_bind; [typeclasses eauto.. | apply log_keeps_subdirs |intros _].
  apply preserves_bind; [typeclasses eauto.. | apply os_listdir_keeps_subdirs |intros src_files].
  apply preserves_bind; [typeclasses eauto.. | apply os_listdir_keeps_subdirs |intros dst_files].
  apply preserves_bind; [typeclasses eauto.. | |intros _].
  { apply preserves_for_each; [typeclasses eauto.. |]. intros x _.
    apply sync_file_keeps_subdirs. }
  apply preserves_bind; [typeclasses eauto.. | |intros _].
  { apply preserves_for_each; [typeclasses eauto.. |]. intros x _.
    apply remove_file_keeps_subdirs. }
  apply preserves_bind; [typeclasses eauto.. | |intros _].
  { apply preserves_when; [typeclasses eauto.. |]. apply print_keeps_subdirs. }
  apply log_keeps_subdirs.
Qed.





End Subdirs.

(* ===================================================================== *)
(** ** What makes a pass return                                           *)
(* ===================================================================== *)

Section Regularity.

Context (clock : nat -> struct_time) (ls : directory -> list string).


(** X2 (subdirectories are left alone).  Whatever the outcome of a pass, the
    entries that are subdirectories after it are exactly those that were
    subdirectories before it: none is removed, replaced or created. *)
Theorem subdirectories_are_left_alone verbose src dst logger w q :
  entry_at (fs (sync clock ls verbose src dst logger w).1) q = Some Subdir
  <-> entry_at (fs w) q = Some Subdir.
Proof.
  split.
  - apply (sync_evolves clock ls verbose src dst logger w).
  - apply (sync_keeps_subdirs clock ls verbose src dst logger w).
Qed.

End Regularity.


(* ===================================================================== *)
(** ** Removals                                                           *)
(* ===================================================================== *)

(** The calls made so far are never forgotten. *)
Abbreviation grows := (emitted (fun _ => True)).



Section Removal.

Context (clock : nat -> struct_time) (ls : directory -> list string).







End Removal.


(* ===================================================================== *)
(** ** A directory mirrored onto itself                                   *)
(* ===================================================================== *)

Section SameDirectory.

Context (clock : nat -> struct_time) (ls : directory -> list string).

(** With the source as destination, an iteration of the first loop reads the
    same file twice and finds the same digest. *)
Lemma sync_file_same_dir verbose d logger dst_files file :
  file ∈ dst_files ->
  preserves (emitted (Forall (fun e => is_copy e = false /\ is_remove e = false)))
    (sync_file clock verbose d d logger dst_files file).
Proof.
  intros Hin w. unfold sync_file.
  rewrite bool_decide_false by (intros Hn; exact (Hn Hin)).
  run_M. unfold hash_file, os_path_join.
  destruct (fs_read (Path d file) (fs w)) as [bytes|] eqn:E; simpl.
  - rewrite E. simpl. rewrite bool_decide_false by (intros Hn; exact (Hn eq_refl)).
    emit_here. repeat (apply Forall_cons_2; [split; reflexivity|]). apply Forall_nil_2.
  - emit_here. repeat (apply Forall_cons_2; [split; reflexivity|]). apply Forall_nil_2.
Qed.

Lemma sync_rest_same_dir verbose d logger (l : list string) :
  preserves (emitted (Forall (fun e => is_copy e = false /\ is_remove e = false)))
    (sync_rest clock verbose d d logger l l).
Proof.
  unfold sync_rest.
  apply preserves_bind; [typeclasses eauto.. | |intros _].
  { apply for_each_emits; [typeclasses eauto|]. intros x Hx.
    apply sync_file_same_dir, Hx. }
  apply preserves_bind; [typeclasses eauto.. | |intros _].
  { apply for_each_emits; [typeclasses eauto|]. intros x Hx w.
    rewrite remove_file_kept by exact Hx. reflexivity. }
  eapply preserves_mono; [|apply sync_close_emits].
  intros w w'. apply emitted_mono. intros evs ->. unfold end_events.
  destruct verbose; simpl; repeat (apply Forall_cons_2; [split; reflexivity|]);
    apply Forall_nil_2.
Qed.

(** X4 (a directory mirrored onto itself).  When the source and the
    destination are the same directory, a pass calls neither [shutil.copy]
    nor [os.remove], whatever its outcome, and changes no entry but the log
    file. *)
Theorem same_directory_pass_is_idle verbose d logger w :
  exists evs : list event,
    trace (sync clock ls verbose d d logger w).1 = (trace w ++ evs)%list
    /\ Forall (fun e => is_copy e = false /\ is_remove e = false) evs
    /\ forall q, q <> log_file_path logger ->
         entry_at (fs (sync clock ls verbose d d logger w).1) q = entry_at (fs w) q.
Proof.
  assert (He : emitted (Forall (fun e => is_copy e = false /\ is_remove e = false))
                 w (sync clock ls verbose d d logger w).1).
  { rewrite sync_shape.
    pose proof (sync_open_emits clock verbose d d logger w) as G0.
    apply (emitted_mono _ (Forall (fun e => is_copy e = false /\ is_remove e = false)))
      in G0.
    2:{ intros evs ->. destruct verbose; simpl;
          repeat (apply Forall_cons_2; [split; reflexivity|]); apply Forall_nil_2. }
    destruct (sync_open clock verbose d d logger w) as [w1 [[]|e]]; simpl in G0;
      [|exact G0].
    etransitivity; [exact G0|].
    destruct (fs w1 !! d) as [ds|] eqn:Ed.
    - etransitivity; [|apply sync_rest_same_dir].
      exists [Listdir d; Listdir d]. simpl. rewrite <- app_assoc, app_nil_r.
      repeat split; try reflexivity.
      repeat (apply Forall_cons_2; [split; reflexivity|]). apply Forall_nil_2.
    - exists [Listdir d]. simpl. rewrite app_nil_r.
      repeat split; try reflexivity.
      repeat (apply Forall_cons_2; [split; reflexivity|]). apply Forall_nil_2. }
  destruct He as (evs & Et & _ & Hq). exists evs. split; [exact Et|]. split; [exact Hq|].
  intros q Hne.
  eapply touched_only_untouched; [apply (sync_touched clock ls verbose d d logger w)|].
  intros [E|(file & _ & Hdd)]; [exact (Hne E) | exact (Hdd eq_refl)].
Qed.

End SameDirectory.

(* ===================================================================== *)
(** ** The calls and the listings                                         *)
(* ===================================================================== *)

Lemma copies_app (a b : list event) : copies (a ++ b) = (copies a ++ copies b)%list.
Proof. apply omap_app. Qed.

Lemma removals_app (a b : list event) : removals (a ++ b) = (removals a ++ removals b)%list.
Proof. apply omap_app. Qed.

Lemma made_trans C1 R1 C2 R2 w1 w2 w3 :
  made C1 R1 w1 w2 -> made C2 R2 w2 w3 -> made (C1 ++ C2) (R1 ++ R2) w1 w3.
Proof.
  intros (e1 & E1 & Hc1 & Hr1) (e2 & E2 & Hc2 & Hr2). exists (e1 ++ e2)%list.
  rewrite E2, E1, <- app_assoc, copies_app, removals_app.
  split; [reflexivity|]. split; apply sublist_app; assumption.
Qed.

Lemma quiet_no_copies (evs : list event) :
  Forall (fun e => is_copy e = false /\ is_remove e = false) evs ->
  copies evs = [] /\ removals evs = [].
Proof.
  induction 1 as [|e evs' [Hc Hr] _ [IHc IHr]]; [auto|].
  destruct e; try discriminate; simpl; auto.
Qed.

Lemma made_none w w' (evs : list event) :
  trace w' = (trace w ++ evs)%list ->
  Forall (fun e => is_copy e = false /\ is_remove e = false) evs ->
  made [] [] w w'.
Proof.
  intros E H. exists evs. split; [exact E|].
  destruct (quiet_no_copies evs H) as [Hc Hr]. rewrite Hc, Hr. split; constructor.
Qed.

Lemma say_quiet verbose line :
  Forall (fun e => is_copy e = false /\ is_remove e = false) (say verbose line).
Proof. destruct verbose; simpl; repeat constructor. Qed.

Lemma names_not_in_cons k x l :
  names_not_in k (x :: l) = (names_not_in k [x] ++ names_not_in k l)%list.
Proof. unfold names_not_in. simpl. destruct (bool_decide (x ∉ k)); reflexivity. Qed.

Section Order.

Context (clock : nat -> struct_time) (ls : directory -> list string).

Lemma sync_file_made verbose src dst logger dst_files file w :
  made [(Path src file, dst)] [] w
    (sync_file clock verbose src dst logger dst_files file w).1.
Proof.
  destruct (sync_file_emits clock verbose src dst logger dst_files file w)
    as (evs & E & _ & H).
  exists evs. split; [exact E|].
  assert (Hcopy : forall tl, copy_events verbose src dst logger file tl ->
            copies tl `sublist_of` [(Path src file, dst)] /\ removals tl = []).
  { intros tl [->|[b ->]]; rewrite ?copies_app, ?removals_app;
      destruct verbose; simpl; split; repeat constructor. }
  assert (Hcr : copies evs `sublist_of` [(Path src file, dst)] /\ removals evs = []).
  { destruct H as [H|[->|[->|(tl & H & ->)]]].
    - apply Hcopy, H.
    - simpl. split; repeat constructor.
    - simpl. split; repeat constructor.
    - simpl. apply Hcopy, H. }
  destruct Hcr as [Hc Hr]. rewrite Hr. split; [exact Hc | constructor].
Qed.

Lemma remove_file_made verbose dst logger src_files file w :
  made [] (map (Path dst) (names_not_in src_files [file])) w
    (remove_file clock verbose dst logger src_files file w).1.
Proof.
  destruct (decide (file ∈ src_files)) as [Hin|Hst].
  - rewrite remove_file_kept by exact Hin. exists []. simpl. rewrite app_nil_r.
    split; [reflexivity|]. split; apply sublist_nil_l.
  - destruct (remove_file_emits clock verbose dst logger src_files file w)
      as (evs & E & _ & H).
    exists evs. split; [exact E|].
    unfold names_not_in. simpl. rewrite bool_decide_true by exact Hst. simpl.
    destruct H as [-> | [-> | ->]]; rewrite ?copies_app, ?removals_app;
      destruct verbose; simpl; split; repeat constructor.
Qed.

Lemma copy_loop_made verbose src dst logger dst_files (l : list string) w :
  made (map (fun n => (Path src n, dst)) l) [] w
    (for_each l (sync_file clock verbose src dst logger dst_files) w).1.
Proof.
  revert w. induction l as [|x l IH]; intros w; simpl.
  - exists []. simpl. rewrite app_nil_r. repeat split; constructor.
  - rewrite bind_run.
    pose proof (sync_file_made verbose src dst logger dst_files x w) as Hx.
    destruct (sync_file clock verbose src dst logger dst_files x w) as [w1 [[]|e]];
      simpl in Hx.
    + exact (made_trans _ _ _ _ _ _ _ Hx (IH w1)).
    + destruct Hx as (evs & E & Hc & Hr). exists evs. simpl. split; [exact E|].
      split; [|exact Hr].
      change ((Path src x, dst) :: map (fun n => (Path src n, dst)) l)
        with ([(Path src x, dst)] ++ map (fun n => (Path src n, dst)) l)%list.
      apply sublist_inserts_r, Hc.
Qed.

Lemma remove_loop_made verbose dst logger src_files (l : list string) w :
  made [] (map (Path dst) (names_not_in src_files l)) w
    (for_each l (remove_file clock verbose dst logger src_files) w).1.
Proof.
  revert w. induction l as [|x l IH]; intros w.
  - exists []. simpl. rewrite app_nil_r. repeat split; constructor.
  - simpl for_each. rewrite bind_run, names_not_in_cons, map_app.
    pose proof (remove_file_made verbose dst logger src_files x w) as Hx.
    destruct (remove_file clock verbose dst logger src_files x w) as [w1 [[]|e]];
      simpl in Hx.
    + exact (made_trans _ _ _ _ _ _ _ Hx (IH w1)).
    + destruct Hx as (evs & E & Hc & Hr). exists evs. simpl. split; [exact E|].
      split; [exact Hc|]. apply sublist_inserts_r, Hr.
Qed.

(** X5 (the listings decide).  Once the start of the pass is logged and both
    directories are listed, the [shutil.copy] calls of the pass are calls
    for names of the source listing, into the destination, in the order of
    the listing and at most one for each name; the [os.remove] calls are
    calls for names that the destination listing has and the source listing
    lacks, in the order of the destination listing and at most one for each
    name.  This holds whatever the outcome of the pass. *)
Theorem calls_follow_the_listings verbose src dst logger w w1 (ds dd : directory) :
  listing_ok ls ->
  sync_open clock verbose src dst logger w = (w1, Ok tt) ->
  fs w1 !! src = Some ds -> fs w1 !! dst = Some dd ->
  exists evs : list event,
    trace (sync clock ls verbose src dst logger w).1 = (trace w ++ evs)%list
    /\ copies evs `sublist_of` map (fun n => (os_path_join src n, dst)) (ls ds)
    /\ removals evs `sublist_of` map (os_path_join dst) (names_not_in (ls ds) (ls dd))
    /\ NoDup (copies evs) /\ NoDup (removals evs).
Proof.
  intros Hls Hopen Es Ed. unfold os_path_join.
  assert (Hm : made (map (fun n => (Path src n, dst)) (ls ds))
                 (map (Path dst) (names_not_in (ls ds) (ls dd)))
                 w (sync clock ls verbose src dst logger w).1).
  { rewrite sync_shape, Hopen, Es, Ed. unfold sync_rest.
    assert (H0 : made [] [] w (listed src dst w1)).
    { destruct (sync_open_emits clock verbose src dst logger w) as (e0 & E0 & _ & ->).
      rewrite Hopen in E0. simpl in E0.
      apply (made_none _ _
               ((say verbose (msg_sync_start src dst)
                 ++ [Log (msg_sync_start (logger_src logger) (logger_dst logger))])
                ++ [Listdir src; Listdir dst])%list).
      - unfold listed, record. cbn [trace]. rewrite E0, <- !app_assoc. reflexivity.
      - rewrite !Forall_app. split; [split|]; [apply say_quiet|..]; repeat constructor. }
    rewrite bind_run.
    pose proof (copy_loop_made verbose src dst logger (ls dd) (ls ds) (listed src dst w1))
      as H1.
    destruct (for_each (ls ds) _ (listed src dst w1)) as [w4 [[]|e]]; simpl in H1.
    2:{ pose proof (made_trans _ _ _ _ _ _ _ H0 H1) as (evs & E & Hc & Hr).
        rewrite !app_nil_l, ?app_nil_r in Hc, Hr.
        exists evs. split; [exact E|]. split; [exact Hc|].
        apply sublist_nil_r in Hr. rewrite Hr. apply sublist_nil_l. }
    rewrite bind_run.
    pose proof (remove_loop_made verbose dst logger (ls ds) (ls dd) w4) as H2.
    destruct (for_each (ls dd) _ w4) as [w5 [[]|e]]; simpl in H2.
    2:{ pose proof (made_trans _ _ _ _ _ _ _ (made_trans _ _ _ _ _ _ _ H0 H1) H2) as Hm.
        rewrite !app_nil_l, !app_nil_r in Hm. exact Hm. }
    assert (H3 : made [] [] w5
              ((when verbose (print (msg_sync_end src dst)) ;; log_sync_end clock logger)
                 w5).1).
    { destruct (sync_close_emits clock verbose src dst logger w5) as (e3 & E3 & _ & ->).
      eapply made_none; [exact E3|]. unfold end_events.
      rewrite Forall_app. split; [apply say_quiet | repeat constructor]. }
    pose proof (made_trans _ _ _ _ _ _ _
                  (made_trans _ _ _ _ _ _ _ (made_trans _ _ _ _ _ _ _ H0 H1) H2) H3) as Hm.
    rewrite !app_nil_l, !app_nil_r in Hm. exact Hm. }
  destruct Hm as (evs & E & Hc & Hr). exists evs.
  split; [exact E|]. split; [exact Hc|]. split; [exact Hr|].
  destruct (Hls ds) as [Nds _]. destruct (Hls dd) as [Ndd _].
  split.
  - eapply sublist_NoDup; [|exact Hc].
    apply NoDup_fmap_2_strong; [|exact Nds].
    intros a b _ _ Hab. injection Hab as ->. reflexivity.
  - eapply sublist_NoDup; [|exact Hr].
    apply NoDup_fmap_2_strong; [intros a b _ _ Hab; injection Hab as ->; reflexivity|].
    unfold names_not_in. apply NoDup_ListNoDup, List.NoDup_filter, NoDup_ListNoDup, Ndd.
Qed.

End Order.

Lemma calls_follow_the_listings_witness :
  exists evs : list event,
    trace (sync example_clock listdir_sorted false "S" "D" example_logger example_world).1
    = (trace example_world ++ evs)%list
    /\ copies evs `sublist_of`
         map (fun n => (os_path_join "S" n, "D"))
           (listdir_sorted {[ "a.txt" := plain_file "hello"; "b.txt" := plain_file "world" ]})
    /\ NoDup (removals evs).
Proof.
  destruct (calls_follow_the_listings example_clock listdir_sorted false "S" "D"
              example_logger example_world
              (sync_open example_clock false "S" "D" example_logger example_world).1
              {[ "a.txt" := plain_file "hello"; "b.txt" := plain_file "world" ]}
              {[ "b.txt" := plain_file "WORLD"; "c.txt" := plain_file "stale" ]})
    as (evs & E & Hc & _ & _ & Hr).
  - exact listdir_sorted_ok.
  - vm_compute. reflexivity.
  - vm_compute. reflexivity.
  - vm_compute. reflexivity.
  - exists evs. split; [exact E|]. split; [exact Hc | exact Hr].
Defined.

(* ===================================================================== *)
(** ** The growth of the log file                                         *)
(* ===================================================================== *)

Lemma append_cons c a b : String c a +:+ b = String c (a +:+ b).
Proof. reflexivity. Qed.

Lemma append_assoc a b c : (a +:+ b) +:+ c = a +:+ (b +:+ c).
Proof.
  induction a as [|x a IH]; [reflexivity|]. rewrite !append_cons, IH. reflexivity.
Qed.

Lemma append_nil_r a : a +:+ "" = a.
Proof. induction a as [|x a IH]; [reflexivity|]. rewrite append_cons, IH. reflexivity. Qed.

Lemma log_lines_app clock ks1 ks2 (m1 m2 : list string) :
  length ks1 = length m1 ->
  log_lines clock (ks1 ++ ks2) (m1 ++ m2)
  = log_lines clock ks1 m1 +:+ log_lines clock ks2 m2.
Proof.
  revert m1. induction ks1 as [|k ks1 IH]; intros [|m m1] Hlen; try discriminate.
  - reflexivity.
  - simpl in Hlen. injection Hlen as Hlen. simpl. rewrite IH by exact Hlen.
    rewrite append_assoc. reflexivity.
Qed.

#[global] Instance log_records_refl clock logger : Reflexive (log_records clock logger).
Proof.
  intros w Hw. split; [exact Hw|]. exists [], []. simpl.
  rewrite app_nil_r, append_nil_r.
  split; [reflexivity|]. split; [reflexivity|]. split; [apply SSorted_nil|].
  split; [apply Forall_nil_2|]. split; [lia | reflexivity].
Qed.

#[global] Instance log_records_trans clock logger : Transitive (log_records clock logger).
Proof.
  intros w1 w2 w3 H12 H23 Hw1.
  destruct (H12 Hw1) as (Hw2 & e1 & k1 & E1 & L1 & S1 & B1 & T1 & C1).
  destruct (H23 Hw2) as (Hw3 & e2 & k2 & E2 & L2 & S2 & B2 & T2 & C2).
  split; [exact Hw3|]. exists (e1 ++ e2)%list, (k1 ++ k2)%list.
  rewrite logged_app, copies_app, !length_app.
  split; [rewrite E2, E1, <- app_assoc; reflexivity|].
  split; [lia|].
  split.
  { apply StronglySorted_app_2; [|exact S1|exact S2].
    intros x1 x2 Hx1 Hx2.
    rewrite Forall_forall in B1. rewrite Forall_forall in B2.
    specialize (B1 x1 Hx1). specialize (B2 x2 Hx2). lia. }
  split.
  { apply Forall_app. split.
    - eapply Forall_impl; [exact B1|]. simpl. intros k Hk. lia.
    - eapply Forall_impl; [exact B2|]. simpl. intros k Hk. lia. }
  split; [lia|].
  rewrite C2, C1, append_assoc, log_lines_app by exact L1. reflexivity.
Qed.


Section LogGrowth.

Context (clock : nat -> struct_time) (ls : directory -> list string).












End LogGrowth.




(* ===================================================================== *)
(** ** The program                                                        *)
(* ===================================================================== *)

Section Program.

Context (clock : nat -> struct_time) (ls : directory -> list string).




End Program.



(* ===================================================================== *)
(** ** The messages of the log                                            *)
(* ===================================================================== *)




(* ===================================================================== *)
(** ** The exceptions of a pass                                           *)
(* ===================================================================== *)


Section Errors.

Context (clock : nat -> struct_time) (ls : directory -> list string).










End Errors.


(* ===================================================================== *)
(** ** The digest of a file                                               *)
(* ===================================================================== *)







